(** * Integration Visualization App: the Riemann-sum core of [intg.py]

    A shallow embedding of the two blocks of [intg.py] that carry
    semantics: "FUNCTION PARSING AND NORMALIZATION" (lines 24-32) and
    "CALCULATIONS" (lines 35-49).  The script is a sequence of assignments
    to module-level variables, so it is modelled as a state-and-exception
    monad over a store holding those variables.  Of the "GRAPH AREA" block
    the curve and the bars that are drawn (lines 65-77) are modelled too, as
    the value of that block.

    Numbers.  The script computes on NumPy [float64] values.  The
    definitions are written once over an interface [Number] of the
    arithmetic the script uses, and instantiated twice: by IEEE binary64
    ([float], what the interpreter runs) and by the exact rationals ([Qc],
    the "reals" of the specification). *)

From Stdlib Require Import ZArith String List Bool Lia.
From Stdlib Require Import QArith Qcanon Field.
From Stdlib Require Import PrimFloat Uint63.
Import ListNotations.

Local Open Scope nat_scope.

(** ** Python outcomes *)

(** The exceptions that the modelled lines can raise. *)
Inductive exn : Type :=
| ValueError          (* np.linspace with a negative number of samples *)
| ZeroDivisionError   (* (b - a) / n with n = 0 *)
| IndexError          (* cumulative[-1] on an empty array *)
| NameError           (* reading a variable that was never assigned *)
| SympifyError        (* sp.sympify on text it cannot parse *)
| TypeError.

Inductive result (A : Type) : Type :=
| Ok (a : A)
| Raise (e : exn).
Arguments Ok {A} a.
Arguments Raise {A} e.

(** ** The arithmetic interface *)

Class Number (T : Type) : Type := {
  zero : T;
  add : T -> T -> T;
  sub : T -> T -> T;
  mul : T -> T -> T;
  div : T -> T -> T;
  of_int : Z -> T;          (* conversion of a Python int *)
  is_zero : T -> bool       (* the test [v == 0] *)
}.

(** binary64, as NumPy and the interpreter compute; the conversion of a
    Python int is the exact one for [|z| < 2^63] (the script converts [n],
    which the slider keeps in 1..500, the indices up to [n], and 2) *)
Definition float_of_int (z : Z) : float :=
  if (z <? 0)%Z then PrimFloat.opp (PrimFloat.of_uint63 (Uint63.of_Z (- z)))
  else PrimFloat.of_uint63 (Uint63.of_Z z).

#[export] Instance float_Number : Number float := {
  zero := PrimFloat.zero;
  add := PrimFloat.add;
  sub := PrimFloat.sub;
  mul := PrimFloat.mul;
  div := PrimFloat.div;
  of_int := float_of_int;
  is_zero := fun v => PrimFloat.eqb v PrimFloat.zero
}.

(** exact rational arithmetic *)
#[export] Instance Qc_Number : Number Qc := {
  zero := 0%Qc;
  add := Qcplus;
  sub := Qcminus;
  mul := Qcmult;
  div := Qcdiv;
  of_int := fun z => Q2Qc (inject_Z z);
  is_zero := fun v => Qc_eq_bool v 0%Qc
}.

(** the comparison [u < v], which the script never makes but the
    properties of its partition speak of *)
Class Comparison (T : Type) : Type := { ltb : T -> T -> bool }.

#[export] Instance float_Comparison : Comparison float :=
  { ltb := PrimFloat.ltb }.

#[export] Instance Qc_Comparison : Comparison Qc :=
  { ltb := fun u v => match (u ?= v)%Qc with Lt => true | _ => false end }.

(** ** NumPy *)

Module np.
Section WithNumber.
Context {T : Type} {arith : Number T}.

(** [np.arange(0, num, dtype=float)] *)
Definition arange (num : Z) : list T :=
  map (fun i => of_int (Z.of_nat i)) (seq 0 (Z.to_nat num)).

(** [y[-1] = stop] *)
Definition set_last (y : list T) (stop : T) : list T :=
  match y with
  | [] => []
  | _ :: _ => removelast y ++ [stop]
  end.

(** [np.linspace(start, stop, num)] with the default [endpoint=True]:
    [div = num - 1], [delta = stop - start], [y = arange(0, num)];
    when [div > 0], [step = delta / div] and [y = y * step] (or, when
    [step == 0], [y = (y / div) * delta]); otherwise [y = y * delta];
    then [y += start] and, when [num > 1], [y[-1] = stop]. *)
Definition linspace (start stop : T) (num : Z) : result (list T) :=
  if (num <? 0)%Z then Raise ValueError
  else
    let div_ := (num - 1)%Z in
    let delta := sub stop start in
    let y := arange num in
    let y :=
      if (0 <? div_)%Z then
        let step := div delta (of_int div_) in
        if is_zero step
        then map (fun v => mul (div v (of_int div_)) delta) y
        else map (fun v => mul v step) y
      else map (fun v => mul v delta) y in
    let y := map (fun v => add v start) y in
    Ok (if (1 <? num)%Z then set_last y stop else y).

(** running sum, seeded with the first element *)
Fixpoint accumulate (acc : T) (l : list T) : list T :=
  match l with
  | [] => []
  | v :: l' => let acc' := add acc v in acc' :: accumulate acc' l'
  end.

(** [np.cumsum(arr)] *)
Definition cumsum (arr : list T) : list T :=
  match arr with
  | [] => []
  | v :: l => v :: accumulate v l
  end.

(** [np.zeros_like(x)], on one element *)
Definition zeros_like (x : T) : T := zero.

(** elementwise [u + v] of two arrays of equal length *)
Fixpoint add_arrays (u v : list T) : list T :=
  match u, v with
  | p :: u', q :: v' => add p q :: add_arrays u' v'
  | _, _ => []
  end.
End WithNumber.
End np.

(** ** Python slices and indexing on arrays *)

(** [arr[:-1]] *)
Definition but_last {A : Type} (arr : list A) : list A := removelast arr.

(** [arr[1:]] *)
Definition from_1 {A : Type} (arr : list A) : list A := tl arr.

(** [arr[-1]] *)
Fixpoint item_last {A : Type} (arr : list A) : result A :=
  match arr with
  | [] => Raise IndexError
  | [v] => Ok v
  | _ :: l => item_last l
  end.

(** the sum [v_0 + ... + v_(k-1)] of an array, added from left to right:
    the [sum(heights)] of the specification (the script itself never sums
    the heights; on two terms every order of summation gives the same
    binary64 value) *)
Definition summation {T : Type} {arith : Number T} (arr : list T) : T :=
  match arr with
  | [] => zero
  | v :: l => fold_left add l v
  end.

(** [x / n] for a float [x] and a Python int [n] *)
Definition truediv {T : Type} {arith : Number T} (x : T) (n : Z) : result T :=
  if (n =? 0)%Z then Raise ZeroDivisionError else Ok (div x (of_int n)).

(** ** SymPy, as far as the script relies on it

    [sp.sympify] and [sp.lambdify] belong to the SymPy library, not to this
    repository: they are taken as an interface.  [lambdify] yields the
    callable that the script applies to whole arrays; it is modelled by the
    function it applies to each element.  That is the callable of a text
    that mentions [x] and applies only names NumPy defines (the
    NumericFunction of the specification).  The callables of other texts,
    which return a scalar or raise when called, are treated apart, in "The
    lambdified callable, as Python has it". *)

Class SymPy (T : Type) : Type := {
  Expression : Type;
  sympify : string -> result Expression;
  lambdify : Expression -> result (T -> T)
}.

(** [method = st.selectbox(..., ["Left", "Right", "Midpoint", "Trapezoid"])] *)
Inductive Method : Type := Left | Right | Midpoint | Trapezoid.

(** [n = st.slider(..., min_value=1, max_value=500, value=10)]: the values
    of [n] that the slider can hand to the script *)
Definition min_value : Z := 1.
Definition max_value : Z := 500.
Definition slider (n : Z) : bool := ((min_value <=? n) && (n <=? max_value))%Z.

Section Script.
Context {T : Type} {arith : Number T} {sympy : SymPy T}.

(** *** The store: the module-level variables of the two blocks, and the
    messages handed to [st.error] *)
Record store : Type := mkStore {
  func_sympy : option Expression;
  f_lambdified : option (T -> T);
  st_error : list string;
  x_vals : option (list T);
  dx : option T;
  heights : option (list T);
  areas : option (list T);
  cumulative : option (list T);
  total_integral : option T
}.

(** nothing assigned yet: the state in which a run of the script starts *)
Definition fresh : store :=
  mkStore None None [] None None None None None None.

Definition set_func_sympy (v : Expression) (s : store) : store :=
  mkStore (Some v) (f_lambdified s) (st_error s) (x_vals s) (dx s)
          (heights s) (areas s) (cumulative s) (total_integral s).
Definition set_f_lambdified (v : T -> T) (s : store) : store :=
  mkStore (func_sympy s) (Some v) (st_error s) (x_vals s) (dx s)
          (heights s) (areas s) (cumulative s) (total_integral s).
Definition add_st_error (v : string) (s : store) : store :=
  mkStore (func_sympy s) (f_lambdified s) (st_error s ++ [v]) (x_vals s)
          (dx s) (heights s) (areas s) (cumulative s) (total_integral s).
Definition set_x_vals (v : list T) (s : store) : store :=
  mkStore (func_sympy s) (f_lambdified s) (st_error s) (Some v) (dx s)
          (heights s) (areas s) (cumulative s) (total_integral s).
Definition set_dx (v : T) (s : store) : store :=
  mkStore (func_sympy s) (f_lambdified s) (st_error s) (x_vals s) (Some v)
          (heights s) (areas s) (cumulative s) (total_integral s).
Definition set_heights (v : list T) (s : store) : store :=
  mkStore (func_sympy s) (f_lambdified s) (st_error s) (x_vals s) (dx s)
          (Some v) (areas s) (cumulative s) (total_integral s).
Definition set_areas (v : list T) (s : store) : store :=
  mkStore (func_sympy s) (f_lambdified s) (st_error s) (x_vals s) (dx s)
          (heights s) (Some v) (cumulative s) (total_integral s).
Definition set_cumulative (v : list T) (s : store) : store :=
  mkStore (func_sympy s) (f_lambdified s) (st_error s) (x_vals s) (dx s)
          (heights s) (areas s) (Some v) (total_integral s).
Definition set_total_integral (v : T) (s : store) : store :=
  mkStore (func_sympy s) (f_lambdified s) (st_error s) (x_vals s) (dx s)
          (heights s) (areas s) (cumulative s) (Some v).

(** *** Statements: state passing, with exceptions *)
Definition M (A : Type) : Type := store -> result A * store.

Definition ret {A : Type} (a : A) : M A := fun s => (Ok a, s).

Definition bind {A B : Type} (m : M A) (k : A -> M B) : M B :=
  fun s =>
    match m s with
    | (Ok a, s') => k a s'
    | (Raise e, s') => (Raise e, s')
    end.

(** the value of an expression that may raise *)
Definition eval {A : Type} (r : result A) : M A := fun s => (r, s).

(** reading a variable; unassigned variables raise [NameError] *)
Definition read {A : Type} (var : store -> option A) : M A :=
  fun s =>
    match var s with
    | Some v => (Ok v, s)
    | None => (Raise NameError, s)
    end.

(** an assignment [var = v] *)
Definition assign {A : Type} (setter : A -> store -> store) (v : A) : M unit :=
  fun s => (Ok tt, setter v s).

(** [try: body except (caught): handler] *)
Definition try_except {A : Type} (body : M A) (caught : exn -> bool)
           (handler : M A) : M A :=
  fun s =>
    match body s with
    | (Ok a, s') => (Ok a, s')
    | (Raise e, s') => if caught e then handler s' else (Raise e, s')
    end.

Notation "x <- m ;; k" := (bind m (fun x => k))
  (at level 100, m at next level, right associativity).
Notation "m ;;; k" := (bind m (fun _ => k))
  (at level 100, right associativity).

(** *** Lines 24-32: function parsing and normalization *)
Definition caught_by_parser (e : exn) : bool :=
  match e with
  | SympifyError | TypeError => true
  | _ => false
  end.

Definition invalid_format : string :=
  "Invalid function format. Please enter a valid mathematical expression.".

Definition parsing (func_str : string) : M unit :=
  try_except
    (e <- eval (sympify func_str) ;;
     assign set_func_sympy e ;;;
     e <- read func_sympy ;;
     f <- eval (lambdify e) ;;
     assign set_f_lambdified f)
    caught_by_parser
    (assign add_st_error invalid_format ;;;
     assign set_f_lambdified np.zeros_like).

(** *** Lines 35-49: calculations *)
Definition calculations (a b : T) (n : Z) (method : Method) : M unit :=
  xs <- eval (np.linspace a b (n + 1)) ;;
  assign set_x_vals xs ;;;
  d <- eval (truediv (sub b a) n) ;;
  assign set_dx d ;;;
  match method with
  | Left =>
      f <- read f_lambdified ;; xs <- read x_vals ;;
      assign set_heights (map f (but_last xs))
  | Right =>
      f <- read f_lambdified ;; xs <- read x_vals ;;
      assign set_heights (map f (from_1 xs))
  | Midpoint =>
      f <- read f_lambdified ;; xs <- read x_vals ;;
      assign set_heights
        (map f (map (fun v => div v (of_int 2))
                    (np.add_arrays (but_last xs) (from_1 xs))))
  | Trapezoid =>
      f <- read f_lambdified ;; xs <- read x_vals ;;
      assign set_heights
        (map (fun v => div v (of_int 2))
             (np.add_arrays (map f (but_last xs)) (map f (from_1 xs))))
  end ;;;
  hs <- read heights ;; d <- read dx ;;
  assign set_areas (map (fun h => mul h d) hs) ;;;
  ar <- read areas ;;
  assign set_cumulative (np.cumsum ar) ;;;
  cu <- read cumulative ;;
  t <- eval (item_last cu) ;;
  assign set_total_integral t.

(** the two blocks in sequence, on the inputs of the sidebar *)
Definition script (func_str : string) (a b : T) (n : Z) (method : Method)
  : M unit :=
  parsing func_str ;;; calculations a b n method.
End Script.

Arguments store T {_}.
Arguments M T {_} A.

(** ** Vocabulary for the properties *)

Section Vocabulary.
Context {T : Type} {arith : Number T} {sympy : SymPy T}.

(** the array assigned to [heights] by the branch taken for [method] *)
Definition rule_heights (method : Method) (f : T -> T) (xs : list T) : list T :=
  match method with
  | Left => map f (but_last xs)
  | Right => map f (from_1 xs)
  | Midpoint =>
      map f (map (fun v => div v (of_int 2))
                 (np.add_arrays (but_last xs) (from_1 xs)))
  | Trapezoid =>
      map (fun v => div v (of_int 2))
          (np.add_arrays (map f (but_last xs)) (map f (from_1 xs)))
  end.

(** the store after the [except] branch of the parsing block *)
Definition fallen_back (s : store T) : store T :=
  set_f_lambdified np.zeros_like (add_st_error invalid_format s).

(** the store after a run that went through *)
Definition computed (s : store T) (f : T -> T) (xs : list T) (d : T)
           (method : Method) (t : T) : store T :=
  let hs := rule_heights method f xs in
  let ar := map (fun h => mul h d) hs in
  mkStore (func_sympy s) (Some f) (st_error s) (Some xs) (Some d)
          (Some hs) (Some ar) (Some (np.cumsum ar)) (Some t).

(** the height of subinterval [i] in the specification's table, from the
    two ends [xi = x_i] and [xi1 = x_{i+1}] of the subinterval *)
Definition table_height (method : Method) (f : T -> T) (xi xi1 : T) : T :=
  match method with
  | Left => f xi
  | Right => f xi1
  | Midpoint => f (div (add xi xi1) (of_int 2))
  | Trapezoid => div (add (f xi) (f xi1)) (of_int 2)
  end.

(** what a run hands to the presentation: partition, step, heights,
    areas, cumulative trace and total *)
Definition outputs (s : store T) :=
  (x_vals s, dx s, heights s, areas s, cumulative s, total_integral s).

(** a run of the whole script from the store [s]: its exception, or its
    outputs *)
Definition run (func_str : string) (a b : T) (n : Z) (method : Method)
           (s : store T) :=
  match script func_str a b n method s with
  | (Ok _, s') => Ok (outputs s')
  | (Raise e, _) => Raise e
  end.

(** a call with [n = 0] refused before anything is computed: an exception
    other than the division by zero, and the store left as it was (no
    partition assigned) *)
Definition rejected_up_front (a b : T) (method : Method) (s : store T) : Prop :=
  exists e, e <> ZeroDivisionError /\
            calculations a b 0 method s = (Raise e, s).

End Vocabulary.

(** ** Shapes of a partition *)

Section Shapes.
Context {T : Type} {cmp : Comparison T}.

Definition strictly_increasing (xs : list T) : Prop :=
  forall i xi xi1, nth_error xs i = Some xi -> nth_error xs (S i) = Some xi1 ->
                   ltb xi xi1 = true.

Definition strictly_decreasing (xs : list T) : Prop :=
  forall i xi xi1, nth_error xs i = Some xi -> nth_error xs (S i) = Some xi1 ->
                   ltb xi1 xi = true.

Definition strictly_monotonic (xs : list T) : Prop :=
  strictly_increasing xs \/ strictly_decreasing xs.
End Shapes.

(** ** A small stand-in for SymPy, to run the script on concrete texts

    It knows two texts, ["x"] and ["x**2"], which [sp.sympify] accepts and
    [sp.lambdify] turns into the identity and the square; it answers every
    other text with [SympifyError], as SymPy does for ["x +"]. *)

Inductive known_expression : Type := expr_x | expr_x_squared.

Definition known_sympify (func_str : string) : result known_expression :=
  if String.eqb func_str "x" then Ok expr_x
  else if String.eqb func_str "x**2" then Ok expr_x_squared
  else Raise SympifyError.

Definition known_lambdify {T : Type} {arith : Number T} (e : known_expression)
  : result (T -> T) :=
  match e with
  | expr_x => Ok (fun x => x)
  | expr_x_squared => Ok (fun x => mul x x)
  end.

#[export] Instance known_SymPy {T : Type} {arith : Number T} : SymPy T := {
  Expression := known_expression;
  sympify := known_sympify;
  lambdify := known_lambdify
}.

(** the store of a run that has just parsed ["x"] *)
Definition parsed_x {T : Type} {arith : Number T} : store T :=
  set_f_lambdified (fun x => x) (set_func_sympy expr_x fresh).

(** the store of a run that has just parsed ["x**2"] *)
Definition parsed_x_squared {T : Type} {arith : Number T} : store T :=
  set_f_lambdified (fun x => mul x x) (set_func_sympy expr_x_squared fresh).

(** ** Lines 62-77: the figure

    The curve [ax.plot(x_plot, f_lambdified(x_plot))] and the bars
    [ax.bar(xi, heights[i], width=dx, align='edge')] drawn by the loop
    [for i in range(n)].  The figure is the value of the block; the
    loader animation, the styling and the labels are left out. *)

(** [arr[i]] for an index [i >= 0] *)
Definition item {A : Type} (arr : list A) (i : nat) : result A :=
  match nth_error arr i with
  | Some v => Ok v
  | None => Raise IndexError
  end.

(** a rectangle handed to [ax.bar(x, height, width=..., align='edge')]: it
    spans [x .. x + width] *)
Record bar (T : Type) : Type := mkBar {
  bar_x : T;
  bar_height : T;
  bar_width : T
}.
Arguments mkBar {T} _ _ _.
Arguments bar_x {T} _.
Arguments bar_height {T} _.
Arguments bar_width {T} _.

Section Graph.
Context {T : Type} {arith : Number T} {sympy : SymPy T}.

Notation "x <- m ;; k" := (bind m (fun x => k))
  (at level 100, m at next level, right associativity).

(** [for i in items: body], collecting what each round yields *)
Fixpoint for_each {A B : Type} (items : list A) (body : A -> M T B)
  : M T (list B) :=
  match items with
  | [] => ret []
  | i :: rest =>
      v <- body i ;; vs <- for_each rest body ;; ret (v :: vs)
  end.

(** [range(n)] *)
Definition range (n : Z) : list nat := seq 0 (Z.to_nat n).

(** lines 69-76: the left edge [xi] of the bar of subinterval [i] *)
Definition bar_edge (method : Method) (i : nat) : M T T :=
  match method with
  | Left => xs <- read x_vals ;; eval (item xs i)
  | Right =>
      xs <- read x_vals ;; v <- eval (item xs (i + 1)) ;;
      d <- read dx ;; ret (sub v d)
  | Midpoint =>
      xs <- read x_vals ;; u <- eval (item xs i) ;;
      xs <- read x_vals ;; v <- eval (item xs (i + 1)) ;;
      d <- read dx ;;
      ret (sub (div (add u v) (of_int 2)) (div d (of_int 2)))
  | Trapezoid => xs <- read x_vals ;; eval (item xs i)
  end.

(** lines 68-77: the bars drawn, one per round of [for i in range(n)] *)
Definition draw_bars (n : Z) (method : Method) : M T (list (bar T)) :=
  for_each (range n)
    (fun i =>
       xi <- bar_edge method i ;;
       hs <- read heights ;; h <- eval (item hs i) ;;
       d <- read dx ;;
       ret (mkBar xi h d)).

(** lines 65-66: the curve [ax.plot(x_plot, f_lambdified(x_plot))] *)
Definition plot_curve (a b : T) : M T (list T * list T) :=
  x_plot <- eval (np.linspace a b 500) ;;
  f <- read f_lambdified ;;
  ret (x_plot, map f x_plot).

(** lines 65-77: the figure, curve and bars *)
Definition graph (a b : T) (n : Z) (method : Method)
  : M T ((list T * list T) * list (bar T)) :=
  curve <- plot_curve a b ;;
  bars <- draw_bars n method ;;
  ret (curve, bars).

(** the left edge of bar [i] as a value, from the two ends [xi = x_vals[i]]
    and [xi1 = x_vals[i+1]] of the subinterval and the step [d] *)
Definition edge_value (method : Method) (xi xi1 d : T) : T :=
  match method with
  | Left => xi
  | Right => sub xi1 d
  | Midpoint => sub (div (add xi xi1) (of_int 2)) (div d (of_int 2))
  | Trapezoid => xi
  end.
End Graph.

(** ** Outcomes of the parser *)

Section ParserOutcome.
Context {T : Type} {arith : Number T} {sympy : SymPy T}.

(** the exception that [sp.sympify] or, after it, [sp.lambdify] raises on a
    text, if any *)
Definition parser_raises (func_str : string) : option exn :=
  match sympify func_str with
  | Raise e => Some e
  | Ok ex =>
      match lambdify ex with
      | Raise e => Some e
      | Ok _ => None
      end
  end.
End ParserOutcome.

(** a library that raises [e] on every text *)
Definition raising_SymPy {T : Type} (e : exn) : SymPy T := {|
  Expression := unit;
  sympify := fun _ => Raise e;
  lambdify := fun _ => Raise e
|}.

(** the rule that samples the same points when the bounds are swapped *)
Definition mirror (method : Method) : Method :=
  match method with
  | Left => Right
  | Right => Left
  | Midpoint => Midpoint
  | Trapezoid => Trapezoid
  end.

(** ** The lambdified callable, as Python has it

    What [sp.lambdify] returns is a Python function whose body is the
    printed expression.  Called on an array, it yields the array of the
    values when the text mentions [x]; the number itself, not an array,
    when the text does not mention [x] (for ["3"] the body is
    [return 3]); and it raises when the text applies a name that NumPy does
    not define (for ["foo(x)"] the call raises [NameError]).  The
    calculations block is modelled here once more, on such a callable and
    on NumPy values that are a scalar or an array. *)

Inductive callable (T : Type) : Type :=
| returns_values (f : T -> T)
| returns_scalar (c : T)
| raises_when_called (e : exn).
Arguments returns_values {T} f.
Arguments returns_scalar {T} c.
Arguments raises_when_called {T} e.

Inductive ndvalue (T : Type) : Type :=
| scalar (v : T)
| ndarray (l : list T).
Arguments scalar {T} v.
Arguments ndarray {T} l.

(** what lines 35-49 assign, when they complete *)
Record calculated (T : Type) : Type := mkCalculated {
  c_x_vals : list T;
  c_dx : T;
  c_heights : ndvalue T;
  c_areas : ndvalue T;
  c_cumulative : list T;
  c_total_integral : T
}.
Arguments mkCalculated {T} _ _ _ _ _ _.
Arguments c_x_vals {T} _.
Arguments c_dx {T} _.
Arguments c_heights {T} _.
Arguments c_areas {T} _.
Arguments c_cumulative {T} _.
Arguments c_total_integral {T} _.

Section Callables.
Context {T : Type} {arith : Number T}.

(** [f_lambdified(arg)] *)
Definition call (k : callable T) (arg : list T) : result (ndvalue T) :=
  match k with
  | returns_values f => Ok (ndarray (map f arg))
  | returns_scalar c => Ok (scalar c)
  | raises_when_called e => Raise e
  end.

(** [u + v], a scalar being broadcast over an array *)
Definition nd_add (u v : ndvalue T) : ndvalue T :=
  match u, v with
  | scalar p, scalar q => scalar (add p q)
  | scalar p, ndarray m => ndarray (map (fun q => add p q) m)
  | ndarray l, scalar q => ndarray (map (fun p => add p q) l)
  | ndarray l, ndarray m => ndarray (np.add_arrays l m)
  end.

(** [u / k] for a Python int [k] *)
Definition nd_div_int (u : ndvalue T) (k : Z) : ndvalue T :=
  match u with
  | scalar v => scalar (div v (of_int k))
  | ndarray l => ndarray (map (fun v => div v (of_int k)) l)
  end.

(** [u * d] for a float [d] *)
Definition nd_mul (u : ndvalue T) (d : T) : ndvalue T :=
  match u with
  | scalar v => scalar (mul v d)
  | ndarray l => ndarray (map (fun h => mul h d) l)
  end.

(** [np.cumsum(u)]: a scalar is taken as an array of one entry *)
Definition nd_cumsum (u : ndvalue T) : list T :=
  match u with
  | scalar v => [v]
  | ndarray l => np.cumsum l
  end.

(** lines 38-45 *)
Definition heights_with (k : callable T) (method : Method) (x_vals : list T)
  : result (ndvalue T) :=
  match method with
  | Left => call k (but_last x_vals)
  | Right => call k (from_1 x_vals)
  | Midpoint =>
      call k (map (fun v => div v (of_int 2))
                  (np.add_arrays (but_last x_vals) (from_1 x_vals)))
  | Trapezoid =>
      match call k (but_last x_vals) with
      | Raise e => Raise e
      | Ok u =>
          match call k (from_1 x_vals) with
          | Raise e => Raise e
          | Ok v => Ok (nd_div_int (nd_add u v) 2)
          end
      end
  end.

(** lines 35-49, with [f_lambdified] the callable [k] *)
Definition calculations_with (k : callable T) (a b : T) (n : Z)
           (method : Method) : result (calculated T) :=
  match np.linspace a b (n + 1) with
  | Raise e => Raise e
  | Ok x_vals =>
      match truediv (sub b a) n with
      | Raise e => Raise e
      | Ok dx =>
          match heights_with k method x_vals with
          | Raise e => Raise e
          | Ok heights =>
              let areas := nd_mul heights dx in
              let cumulative := nd_cumsum areas in
              match item_last cumulative with
              | Raise e => Raise e
              | Ok total_integral =>
                  Ok (mkCalculated x_vals dx heights areas cumulative
                                   total_integral)
              end
          end
      end
  end.

(** the height that a callable returning the scalar [c] gives *)
Definition scalar_height (method : Method) (c : T) : T :=
  match method with
  | Trapezoid => div (add c c) (of_int 2)
  | _ => c
  end.
End Callables.

(** * Properties *)

(** ** Arrays: slices, elementwise sums, running sums *)

Lemma Ok_inj {A : Type} (u v : A) : Ok u = Ok v -> u = v.
Proof. congruence. Qed.

Lemma Some_inj {A : Type} (u v : A) : Some u = Some v -> u = v.
Proof. congruence. Qed.

Section Arrays.
Context {A : Type}.

Lemma length_but_last (l : list A) : length (but_last l) = length l - 1.
Proof.
  unfold but_last.
  induction l as [|v [|w l] IH]; simpl in *; auto; lia.
Qed.

Lemma length_from_1 (l : list A) : length (from_1 l) = length l - 1.
Proof. destruct l; simpl; lia. Qed.

Lemma nth_error_but_last (l : list A) (i : nat) :
  i < length l - 1 -> nth_error (but_last l) i = nth_error l i.
Proof.
  unfold but_last. revert i.
  induction l as [|v [|w l] IH]; intros i Hi; simpl in Hi; try lia.
  destruct i as [|i]; [reflexivity|].
  change (nth_error (removelast (w :: l)) i = nth_error (w :: l) i).
  apply IH. simpl. lia.
Qed.

Lemma nth_error_from_1 (l : list A) (i : nat) :
  nth_error (from_1 l) i = nth_error l (S i).
Proof. destruct l; simpl; [destruct i|]; reflexivity. Qed.

Lemma item_last_nth_error (l : list A) :
  l <> [] -> exists t, item_last l = Ok t /\ nth_error l (length l - 1) = Some t.
Proof.
  induction l as [|v [|w l] IH]; intros Hne; [congruence| |].
  - exists v. split; reflexivity.
  - destruct IH as [t [E1 E2]]; [discriminate|].
    exists t. split; [exact E1|].
    simpl in E2 |- *. rewrite Nat.sub_0_r in E2. exact E2.
Qed.
End Arrays.

Section NumericArrays.
Context {T : Type} {arith : Number T}.

Lemma length_arange (num : Z) : length (np.arange num) = Z.to_nat num.
Proof. unfold np.arange. now rewrite length_map, length_seq. Qed.

Lemma nth_error_arange (num : Z) (i : nat) :
  i < Z.to_nat num -> nth_error (np.arange num) i = Some (of_int (Z.of_nat i)).
Proof.
  intros Hi. unfold np.arange.
  rewrite nth_error_map, nth_error_seq.
  destruct (Nat.ltb_spec i (Z.to_nat num)); [reflexivity|lia].
Qed.

Lemma length_set_last (y : list T) (stop : T) :
  length (np.set_last y stop) = length y.
Proof.
  destruct y as [|v y]; [reflexivity|].
  unfold np.set_last. rewrite length_app.
  change (removelast (v :: y)) with (but_last (v :: y)).
  rewrite length_but_last. simpl. lia.
Qed.

Lemma nth_error_set_last_lt (y : list T) (stop : T) (i : nat) :
  i < length y - 1 -> nth_error (np.set_last y stop) i = nth_error y i.
Proof.
  intros Hi. destruct y as [|v y]; [reflexivity|].
  unfold np.set_last.
  change (removelast (v :: y)) with (but_last (v :: y)).
  rewrite nth_error_app1 by (rewrite length_but_last; exact Hi).
  now apply nth_error_but_last.
Qed.

Lemma nth_error_set_last_end (y : list T) (stop : T) :
  y <> [] -> nth_error (np.set_last y stop) (length y - 1) = Some stop.
Proof.
  intros Hne. destruct y as [|v y]; [congruence|].
  unfold np.set_last.
  change (removelast (v :: y)) with (but_last (v :: y)).
  rewrite nth_error_app2 by (rewrite length_but_last; lia).
  rewrite length_but_last, Nat.sub_diag. reflexivity.
Qed.

Lemma length_add_arrays (u v : list T) :
  length (np.add_arrays u v) = Nat.min (length u) (length v).
Proof.
  revert v. induction u as [|p u IH]; intros [|q v]; simpl; auto.
Qed.

Lemma nth_error_add_arrays (u v : list T) (i : nat) (p q : T) :
  nth_error u i = Some p -> nth_error v i = Some q ->
  nth_error (np.add_arrays u v) i = Some (add p q).
Proof.
  revert v i. induction u as [|p' u IH]; intros [|q' v] [|i]; simpl;
    try discriminate.
  - intros [= ->] [= ->]. reflexivity.
  - apply IH.
Qed.

Lemma length_accumulate (acc : T) (l : list T) :
  length (np.accumulate acc l) = length l.
Proof. revert acc. induction l as [|v l IH]; intros acc; simpl; auto. Qed.

Lemma length_cumsum (arr : list T) : length (np.cumsum arr) = length arr.
Proof. destruct arr; simpl; [|rewrite length_accumulate]; reflexivity. Qed.

Lemma nth_error_cumsum_0 (arr : list T) :
  nth_error (np.cumsum arr) 0 = nth_error arr 0.
Proof. destruct arr; reflexivity. Qed.

Lemma nth_error_accumulate_S (acc : T) (l : list T) (i : nat) (c v : T) :
  nth_error (acc :: np.accumulate acc l) i = Some c ->
  nth_error l i = Some v ->
  nth_error (np.accumulate acc l) i = Some (add c v).
Proof.
  revert acc i c. induction l as [|w l IH]; intros acc i c Hc Hv.
  - destruct i; discriminate.
  - destruct i as [|i]; simpl in *.
    + injection Hc as <-. injection Hv as <-. reflexivity.
    + now apply IH.
Qed.

(** each entry of the running sum is the previous one plus the next term *)
Lemma nth_error_cumsum_S (arr : list T) (i : nat) (c v : T) :
  nth_error (np.cumsum arr) i = Some c ->
  nth_error arr (S i) = Some v ->
  nth_error (np.cumsum arr) (S i) = Some (add c v).
Proof.
  destruct arr as [|w l]; [discriminate|].
  simpl. apply nth_error_accumulate_S.
Qed.

Lemma item_last_accumulate (acc : T) (l : list T) :
  item_last (acc :: np.accumulate acc l) = Ok (fold_left add l acc).
Proof.
  revert acc. induction l as [|v l IH]; intros acc; [reflexivity|].
  cbn [np.accumulate fold_left]. rewrite <- IH. reflexivity.
Qed.

(** the last running sum is the sum *)
Lemma item_last_cumsum (v : T) (l : list T) :
  item_last (np.cumsum (v :: l)) = Ok (summation (v :: l)).
Proof. apply item_last_accumulate. Qed.
End NumericArrays.

(** ** What a run of the calculations block leaves in the store *)

Section Run.
Context {T : Type} {arith : Number T} {sympy : SymPy T}.

Lemma linspace_ok (a b : T) (num : Z) :
  (0 <= num)%Z ->
  exists xs, np.linspace a b num = Ok xs /\ length xs = Z.to_nat num.
Proof.
  intros Hnum. unfold np.linspace.
  destruct (Z.ltb_spec num 0); [lia|].
  eexists. split; [reflexivity|].
  assert (L : forall y : list T,
             length y = Z.to_nat num ->
             length (if (1 <? num)%Z
                     then np.set_last (map (fun v => add v a) y) b
                     else map (fun v => add v a) y) = Z.to_nat num).
  { intros y Hy. destruct (1 <? num)%Z;
      [rewrite length_set_last|]; now rewrite length_map. }
  destruct (0 <? num - 1)%Z; [destruct (is_zero _)|];
    apply L; now rewrite length_map, length_arange.
Qed.

(** the partition as [np.linspace] computes it, in any arithmetic: [n + 1]
    entries, the last one set to [b], the others [i * dx + a] (when the
    step is not zero) *)
Lemma partition_as_computed (a b : T) (n : Z) (xs : list T) :
  (1 <= n)%Z -> np.linspace a b (n + 1) = Ok xs ->
  length xs = S (Z.to_nat n) /\
  nth_error xs (Z.to_nat n) = Some b /\
  (is_zero (div (sub b a) (of_int n)) = false ->
   forall i, i < Z.to_nat n ->
     nth_error xs i
     = Some (add (mul (of_int (Z.of_nat i)) (div (sub b a) (of_int n))) a)).
Proof.
  intros Hn Hxs.
  destruct (linspace_ok a b (n + 1)%Z) as [xs' [Hxs' Hlen]]; [lia|].
  replace (Z.to_nat (n + 1)%Z) with (S (Z.to_nat n)) in Hlen by lia.
  assert (xs' = xs) by congruence. subst xs'. clear Hxs'.
  split; [exact Hlen|].
  unfold np.linspace in Hxs.
  destruct (Z.ltb_spec (n + 1) 0); [lia|].
  replace (n + 1 - 1)%Z with n in Hxs by lia.
  destruct (Z.ltb_spec 0 n); [|lia].
  destruct (Z.ltb_spec 1 (n + 1)); [|lia].
  apply Ok_inj in Hxs. subst xs.
  rewrite length_set_last in Hlen.
  split.
  - match goal with
    | |- nth_error (np.set_last ?y _) _ = _ =>
        pose proof (nth_error_set_last_end y b) as E;
        rewrite Hlen in E; simpl in E; rewrite Nat.sub_0_r in E;
        apply E; intros N; rewrite N in Hlen; discriminate
    end.
  - intros Hz i Hi.
    rewrite nth_error_set_last_lt by (rewrite Hlen; lia).
    rewrite Hz, !nth_error_map, nth_error_arange by lia. reflexivity.
Qed.

Lemma length_rule_heights (method : Method) (f : T -> T) (xs : list T) :
  length (rule_heights method f xs) = length xs - 1.
Proof.
  destruct method; simpl;
    rewrite ?length_map, ?length_add_arrays, ?length_map,
      ?length_but_last, ?length_from_1; lia.
Qed.

Lemma calculations_run (s : store T) (f : T -> T) (a b : T) (n : Z)
      (method : Method) :
  f_lambdified s = Some f -> (1 <= n)%Z ->
  exists xs t,
    np.linspace a b (n + 1) = Ok xs /\
    length xs = S (Z.to_nat n) /\
    item_last (np.cumsum (map (fun h => mul h (div (sub b a) (of_int n)))
                              (rule_heights method f xs))) = Ok t /\
    calculations a b n method s
    = (Ok tt, computed s f xs (div (sub b a) (of_int n)) method t).
Proof.
  intros Hf Hn.
  destruct (linspace_ok a b (n + 1)%Z) as [xs [Hxs Hlen]]; [lia|].
  replace (Z.to_nat (n + 1)%Z) with (S (Z.to_nat n)) in Hlen by lia.
  set (d := div (sub b a) (of_int n)).
  destruct (@item_last_nth_error T
              (np.cumsum (map (fun h => mul h d) (rule_heights method f xs))))
    as [t [Ht _]].
  { intros E. apply (f_equal (@length T)) in E.
    rewrite length_cumsum, length_map, length_rule_heights, Hlen in E.
    simpl in E. lia. }
  exists xs, t. repeat split; auto.
  unfold calculations, bind, eval, assign, read, truediv.
  rewrite Hxs.
  destruct (Z.eqb_spec n 0); [lia|].
  destruct method; simpl; rewrite Hf; simpl;
    fold d; (simpl in Ht; rewrite Ht);
    unfold computed, set_total_integral, set_cumulative, set_areas,
      set_heights, set_dx, set_x_vals; simpl; rewrite Hf; reflexivity.
Qed.
End Run.

(** ** The calculations block on valid inputs *)

Section Calculations.
Context {T : Type} {arith : Number T} {sympy : SymPy T}.

(** C1. For every callable [f], bounds [a], [b] and [n >= 1], the run goes
    through and its [heights] array follows the table of the rules: entry [i]
    (for [0 <= i < n]) is [f(x_i)] for Left, [f(x_{i+1})] for Right,
    [f((x_i + x_{i+1})/2)] for Midpoint and [(f(x_i) + f(x_{i+1}))/2] for
    Trapezoid, where [x_0 .. x_n] is the partition [x_vals]. *)
Theorem heights_follow_the_rule_table
      (s : store T) (f : T -> T) (a b : T) (n : Z) (method : Method) :
  f_lambdified s = Some f -> (1 <= n)%Z ->
  exists s' xs hs,
    calculations a b n method s = (Ok tt, s') /\
    x_vals s' = Some xs /\ heights s' = Some hs /\
    length xs = S (Z.to_nat n) /\
    forall i, i < Z.to_nat n ->
      exists xi xi1,
        nth_error xs i = Some xi /\ nth_error xs (S i) = Some xi1 /\
        nth_error hs i = Some (table_height method f xi xi1).
Proof.
  intros Hf Hn.
  destruct (calculations_run s f a b n method Hf Hn)
    as [xs [t [_ [Hlen [_ Hrun]]]]].
  exists (computed s f xs (div (sub b a) (of_int n)) method t), xs,
    (rule_heights method f xs).
  repeat split; auto.
  intros i Hi.
  destruct (nth_error xs i) as [xi|] eqn:Ei;
    [|apply nth_error_None in Ei; lia].
  destruct (nth_error xs (S i)) as [xi1|] eqn:Ei1;
    [|apply nth_error_None in Ei1; lia].
  exists xi, xi1. repeat split.
  assert (Eb : nth_error (but_last xs) i = Some xi)
    by (rewrite nth_error_but_last; [exact Ei|lia]).
  assert (Ef : nth_error (from_1 xs) i = Some xi1)
    by (rewrite nth_error_from_1; exact Ei1).
  destruct method; simpl; rewrite ?nth_error_map.
  - now rewrite Eb.
  - now rewrite Ef.
  - now rewrite (nth_error_add_arrays _ _ _ _ _ Eb Ef).
  - rewrite (nth_error_add_arrays (map f (but_last xs)) (map f (from_1 xs))
               i (f xi) (f xi1)); [reflexivity| |];
      rewrite nth_error_map; [now rewrite Eb|now rewrite Ef].
Qed.

(** The length invariant, for a callable that returns the array of the
    values of [f]: for every rule and [n >= 1], [heights], [areas] and
    [cumulative] have exactly [n] entries and the partition [x_vals] has
    exactly [n + 1]. *)
Theorem lengths_of_the_arrays
      (s : store T) (f : T -> T) (a b : T) (n : Z) (method : Method) :
  f_lambdified s = Some f -> (1 <= n)%Z ->
  exists s' xs hs ar cu,
    calculations a b n method s = (Ok tt, s') /\
    x_vals s' = Some xs /\ heights s' = Some hs /\
    areas s' = Some ar /\ cumulative s' = Some cu /\
    Z.of_nat (length xs) = (n + 1)%Z /\
    Z.of_nat (length hs) = n /\
    Z.of_nat (length ar) = n /\
    Z.of_nat (length cu) = n.
Proof.
  intros Hf Hn.
  destruct (calculations_run s f a b n method Hf Hn)
    as [xs [t [_ [Hlen [_ Hrun]]]]].
  set (d := div (sub b a) (of_int n)) in *.
  exists (computed s f xs d method t), xs, (rule_heights method f xs),
    (map (fun h => mul h d) (rule_heights method f xs)),
    (np.cumsum (map (fun h => mul h d) (rule_heights method f xs))).
  repeat split; auto;
    rewrite ?length_cumsum, ?length_map, ?length_rule_heights, Hlen;
    simpl; lia.
Qed.

(** C3. For every rule, [f], bounds and [n >= 1]: each area is the height
    times [dx = (b - a)/n]; [cumulative] is the inclusive prefix sum of the
    areas (entry 0 is [areas[0]], entry [i+1] is entry [i] plus
    [areas[i+1]]); and [total_integral] is entry [n - 1] of [cumulative]. *)
Theorem areas_and_cumulative_trace
      (s : store T) (f : T -> T) (a b : T) (n : Z) (method : Method) :
  f_lambdified s = Some f -> (1 <= n)%Z ->
  exists s' hs ar cu t,
    calculations a b n method s = (Ok tt, s') /\
    dx s' = Some (div (sub b a) (of_int n)) /\
    heights s' = Some hs /\ areas s' = Some ar /\
    cumulative s' = Some cu /\ total_integral s' = Some t /\
    length hs = Z.to_nat n /\ length ar = Z.to_nat n /\
    length cu = Z.to_nat n /\
    (forall i h, nth_error hs i = Some h ->
                 nth_error ar i = Some (mul h (div (sub b a) (of_int n)))) /\
    nth_error cu 0 = nth_error ar 0 /\
    (forall i c v, nth_error cu i = Some c -> nth_error ar (S i) = Some v ->
                   nth_error cu (S i) = Some (add c v)) /\
    nth_error cu (Z.to_nat n - 1) = Some t.
Proof.
  intros Hf Hn.
  destruct (calculations_run s f a b n method Hf Hn)
    as [xs [t [_ [Hlen [Ht Hrun]]]]].
  set (d := div (sub b a) (of_int n)) in *.
  set (hs := rule_heights method f xs) in *.
  assert (Lh : length hs = Z.to_nat n)
    by (unfold hs; rewrite length_rule_heights, Hlen; simpl; lia).
  exists (computed s f xs d method t), hs, (map (fun h => mul h d) hs),
    (np.cumsum (map (fun h => mul h d) hs)), t.
  repeat split; auto.
  - now rewrite length_map.
  - now rewrite length_cumsum, length_map.
  - intros i h Hi. now rewrite nth_error_map, Hi.
  - apply nth_error_cumsum_0.
  - intros i c v. apply nth_error_cumsum_S.
  - destruct (@item_last_nth_error T (np.cumsum (map (fun h => mul h d) hs)))
      as [t' [Ht' Hn']].
    { intros E. apply (f_equal (@length T)) in E.
      rewrite length_cumsum, length_map, Lh in E. simpl in E. lia. }
    rewrite length_cumsum, length_map, Lh in Hn'. congruence.
Qed.
End Calculations.

(** an instance, on [x**2] over [0, 5] with five
    trapezoids *)
Lemma heights_follow_the_rule_table_witness :
  exists s' xs hs,
    calculations 0%Qc (Q2Qc 5) 5 Trapezoid parsed_x_squared = (Ok tt, s') /\
    x_vals s' = Some xs /\ heights s' = Some hs /\
    length xs = S (Z.to_nat 5) /\
    forall i, i < Z.to_nat 5 ->
      exists xi xi1,
        nth_error xs i = Some xi /\ nth_error xs (S i) = Some xi1 /\
        nth_error hs i
        = Some (table_height Trapezoid (fun x => mul x x) xi xi1).
Proof.
  apply (heights_follow_the_rule_table parsed_x_squared (fun x => mul x x)
           0%Qc (Q2Qc 5) 5 Trapezoid); [reflexivity|lia].
Defined.

(** an instance, on [x**2] over [0, 5] with ten midpoints *)
Lemma lengths_of_the_arrays_witness :
  exists s' xs hs ar cu,
    calculations 0%Qc (Q2Qc 5) 10 Midpoint parsed_x_squared = (Ok tt, s') /\
    x_vals s' = Some xs /\ heights s' = Some hs /\
    areas s' = Some ar /\ cumulative s' = Some cu /\
    Z.of_nat (length xs) = (10 + 1)%Z /\
    Z.of_nat (length hs) = 10%Z /\
    Z.of_nat (length ar) = 10%Z /\
    Z.of_nat (length cu) = 10%Z.
Proof.
  apply (lengths_of_the_arrays parsed_x_squared (fun x => mul x x)
           0%Qc (Q2Qc 5) 10 Midpoint); [reflexivity|lia].
Defined.

(** an instance, on [x**2] over [0, 5] with five right rectangles *)
Lemma areas_and_cumulative_trace_witness :
  exists s' hs ar cu t,
    calculations 0%Qc (Q2Qc 5) 5 Right parsed_x_squared = (Ok tt, s') /\
    dx s' = Some (div (sub (Q2Qc 5) 0%Qc) (of_int 5)) /\
    heights s' = Some hs /\ areas s' = Some ar /\
    cumulative s' = Some cu /\ total_integral s' = Some t /\
    length hs = Z.to_nat 5 /\ length ar = Z.to_nat 5 /\
    length cu = Z.to_nat 5 /\
    (forall i h, nth_error hs i = Some h ->
                 nth_error ar i
                 = Some (mul h (div (sub (Q2Qc 5) 0%Qc) (of_int 5)))) /\
    nth_error cu 0 = nth_error ar 0 /\
    (forall i c v, nth_error cu i = Some c -> nth_error ar (S i) = Some v ->
                   nth_error cu (S i) = Some (add c v)) /\
    nth_error cu (Z.to_nat 5 - 1) = Some t.
Proof.
  apply (areas_and_cumulative_trace parsed_x_squared (fun x => mul x x)
           0%Qc (Q2Qc 5) 5 Right); [reflexivity|lia].
Defined.

(** ** The parsing block, and runs of the whole script *)

Section Parsing.
Context {T : Type} {arith : Number T} {sympy : SymPy T}.

Lemma parsing_outcome (func_str : string) (s : store T) :
  parsing func_str s =
  match sympify func_str with
  | Ok e =>
      match lambdify e with
      | Ok f => (Ok tt, set_f_lambdified f (set_func_sympy e s))
      | Raise ex =>
          if caught_by_parser ex
          then (Ok tt, fallen_back (set_func_sympy e s))
          else (Raise ex, set_func_sympy e s)
      end
  | Raise ex =>
      if caught_by_parser ex then (Ok tt, fallen_back s) else (Raise ex, s)
  end.
Proof.
  unfold parsing, try_except, bind, eval, assign, read.
  destruct (sympify func_str) as [e|ex]; simpl.
  - destruct (lambdify e) as [f|ex]; simpl; [reflexivity|].
    destruct (caught_by_parser ex); reflexivity.
  - destruct (caught_by_parser ex); reflexivity.
Qed.

(** the except branch substitutes the zero function and reports *)
Lemma parsing_falls_back (func_str : string) (s : store T) :
  sympify func_str = Raise SympifyError ->
  parsing func_str s
  = (Ok tt, set_f_lambdified np.zeros_like (add_st_error invalid_format s)).
Proof. intros E. rewrite parsing_outcome, E. reflexivity. Qed.

(** the outcome of parsing, and the callable it leaves, do not depend on
    the store it starts from *)
Lemma parsing_store_independent (func_str : string) (s1 s2 : store T) :
  fst (parsing func_str s1) = fst (parsing func_str s2) /\
  (fst (parsing func_str s1) = Ok tt ->
   f_lambdified (snd (parsing func_str s1))
   = f_lambdified (snd (parsing func_str s2))).
Proof.
  rewrite !parsing_outcome.
  destruct (sympify func_str) as [e|ex].
  - destruct (lambdify e) as [f|ex]; [split; reflexivity|].
    destruct (caught_by_parser ex); split; try reflexivity; discriminate.
  - destruct (caught_by_parser ex); split; try reflexivity; discriminate.
Qed.

Lemma calculations_store_independent
      (a b : T) (n : Z) (method : Method) (s1 s2 : store T) :
  f_lambdified s1 = f_lambdified s2 ->
  fst (calculations a b n method s1) = fst (calculations a b n method s2) /\
  (fst (calculations a b n method s1) = Ok tt ->
   outputs (snd (calculations a b n method s1))
   = outputs (snd (calculations a b n method s2))).
Proof.
  intros Hf.
  unfold calculations, bind, eval, assign, read.
  destruct (np.linspace a b (n + 1)) as [xs|e]; simpl;
    [|split; [reflexivity|discriminate]].
  destruct (truediv (sub b a) n) as [d|e]; simpl;
    [|split; [reflexivity|discriminate]].
  destruct method; simpl; rewrite Hf;
    (destruct (f_lambdified s2) as [f|]; simpl;
     [|split; [reflexivity|discriminate]]);
    match goal with
    | |- context [item_last ?l] => destruct (item_last l) as [t|e]
    end; simpl; split; try reflexivity; discriminate.
Qed.

Lemma run_store_independent
      (func_str : string) (a b : T) (n : Z) (method : Method)
      (s1 s2 : store T) :
  run func_str a b n method s1 = run func_str a b n method s2.
Proof.
  unfold run, script, bind.
  destruct (parsing_store_independent func_str s1 s2) as [P1 P2].
  destruct (parsing func_str s1) as [[[]|e1] p1],
           (parsing func_str s2) as [[[]|e2] p2];
    simpl in P1, P2; try discriminate.
  - specialize (P2 eq_refl).
    destruct (calculations_store_independent a b n method p1 p2 P2)
      as [C1 C2].
    destruct (calculations a b n method p1) as [[[]|e1] c1],
             (calculations a b n method p2) as [[[]|e2] c2];
      simpl in C1, C2; try discriminate.
    + now rewrite (C2 eq_refl).
    + congruence.
  - congruence.
Qed.

(** C9. The core computation is deterministic, with no hidden state: what a
    run of the script yields (its exception, or the partition, step,
    heights, areas, cumulative trace and total) depends on the inputs
    [(func_str, a, b, n, method)] only, not on the store the run starts
    from; in particular a second run, started from the store the first one
    left, yields exactly what the first one yielded. *)
Theorem run_depends_on_inputs_only
      (func_str : string) (a b : T) (n : Z) (method : Method) :
  (forall s1 s2 : store T,
      run func_str a b n method s1 = run func_str a b n method s2) /\
  (forall s : store T,
      run func_str a b n method (snd (script func_str a b n method s))
      = run func_str a b n method s).
Proof.
  split; intros; apply run_store_independent.
Qed.

(** C6 (where the code departs from it). A text that [sp.sympify] and
    [sp.lambdify] accept is taken as it is: the [except] branch is not
    entered, no error is reported and the callable is the one [lambdify]
    returned, not the zero fallback.  SymPy accepts texts naming other
    variables than [x], such as ["y+1"]. *)
Theorem parsing_keeps_what_sympy_accepts
      (func_str : string) (e : Expression) (f : T -> T) (s : store T) :
  sympify func_str = Ok e -> lambdify e = Ok f ->
  parsing func_str s = (Ok tt, set_f_lambdified f (set_func_sympy e s)) /\
  st_error (snd (parsing func_str s)) = st_error s.
Proof.
  intros E1 E2. rewrite parsing_outcome, E1, E2. split; reflexivity.
Qed.

Lemma calculations_at_0 (a b : T) (method : Method) (s : store T) :
  calculations a b 0 method s
  = (Raise ZeroDivisionError,
     set_x_vals [add (mul (of_int 0) (sub b a)) a] s).
Proof. reflexivity. Qed.

(** C7, amended. The slider never yields [n = 0]; the calculations have no
    check of their own: run on [n = 0], they first assign the one-point
    partition [np.linspace(a, b, 1)] to [x_vals] and then stop with
    [ZeroDivisionError] at [dx = (b - a) / n]; no step, heights, areas,
    cumulative trace or total is assigned. *)
Theorem no_subdivisions_divides_by_zero :
  slider 0 = false /\
  forall (a b : T) (method : Method) (s : store T),
    calculations a b 0 method s
    = (Raise ZeroDivisionError,
       set_x_vals [add (mul (of_int 0) (sub b a)) a] s).
Proof.
  split; [reflexivity|]. intros. apply calculations_at_0.
Qed.
End Parsing.

(** an instance, on the text ["x**2"] *)
Lemma parsing_keeps_what_sympy_accepts_witness :
  parsing "x**2" (@fresh Qc known_SymPy)
  = (Ok tt, set_f_lambdified (fun x => mul x x)
              (set_func_sympy expr_x_squared fresh)) /\
  st_error (snd (parsing "x**2" (@fresh Qc known_SymPy))) = st_error fresh.
Proof.
  apply (parsing_keeps_what_sympy_accepts (sympy := known_SymPy)
           "x**2" expr_x_squared (fun x => mul x x) fresh);
    reflexivity.
Defined.

(** C7 as stated fails: on [n = 0] the run is not refused up front; it stops
    at the division, after the partition has been assigned. *)
Lemma no_subdivisions_not_rejected_up_front :
  ~ rejected_up_front 0%Qc (Q2Qc 5) Left parsed_x_squared.
Proof.
  intros [e [Hne Hrun]]. rewrite calculations_at_0 in Hrun.
  injection Hrun as He _. congruence.
Qed.

(** ** Exact arithmetic: the script over the rationals *)

Local Open Scope Qc_scope.

Lemma of_int_Qc_nonzero (n : Z) : n <> 0%Z -> (of_int n : Qc) <> 0%Qc.
Proof.
  intros Hn E. change (Q2Qc (inject_Z n) = Q2Qc 0) in E.
  apply Q2Qc_eq_iff in E.
  unfold Qeq, inject_Z in E. cbn [Qnum Qden] in E. lia.
Qed.

Lemma of_int_Qc_S (i : nat) :
  (of_int (Z.of_nat (S i)) : Qc) = (of_int (Z.of_nat i) + 1)%Qc.
Proof.
  change ((Q2Qc (inject_Z (Z.of_nat (S i)))) = (Q2Qc (inject_Z (Z.of_nat i)) + Q2Qc 1)%Qc).
  apply Qc_is_canon. unfold Qcplus, Q2Qc. cbn [this].
  rewrite !Qred_correct. unfold Qeq, Qplus, inject_Z. cbn [Qnum Qden]. lia.
Qed.

Lemma of_int_Qc_pos (n : Z) : (0 < n)%Z -> (0 < (of_int n : Qc))%Qc.
Proof.
  intros Hn. change (0 < Q2Qc (inject_Z n))%Qc.
  unfold Qclt, Q2Qc. cbn [this]. rewrite !Qred_correct.
  unfold Qlt, inject_Z. cbn [Qnum Qden]. lia.
Qed.

Lemma Qc_sum_fold (l : list Qc) (acc : Qc) :
  fold_left add l acc = (acc + summation l)%Qc.
Proof.
  revert acc. induction l as [|w l IH]; intros acc.
  - simpl. ring.
  - change (summation (w :: l)) with (fold_left add l w).
    cbn [fold_left]. rewrite IH, (IH w). simpl. ring.
Qed.

Lemma Qc_sum_cons (v : Qc) (l : list Qc) : summation (v :: l) = (v + summation l)%Qc.
Proof. apply (Qc_sum_fold l v). Qed.

Lemma Qc_sum_scaled (d : Qc) (l : list Qc) :
  summation (map (fun h => mul h d) l) = (d * summation l)%Qc.
Proof.
  induction l as [|v l IH]; [simpl; ring|].
  change (map (fun h => mul h d) (v :: l))
    with (mul v d :: map (fun h => mul h d) l).
  rewrite !Qc_sum_cons, IH. simpl. ring.
Qed.

Lemma Qc_sum_add_arrays (u v : list Qc) :
  length u = length v ->
  summation (np.add_arrays u v) = (summation u + summation v)%Qc.
Proof.
  revert v. induction u as [|p u IH]; intros [|q v] L; try discriminate.
  - simpl. ring.
  - change (np.add_arrays (p :: u) (q :: v))
      with (add p q :: np.add_arrays u v).
    rewrite !Qc_sum_cons, IH by (simpl in L; lia). simpl. ring.
Qed.



Lemma linspace_Qc_entries (a b : Qc) (n : Z) (xs : list Qc) :
  (1 <= n)%Z -> np.linspace a b (n + 1) = Ok xs ->
  forall i, (i <= Z.to_nat n)%nat ->
    nth_error xs i = Some (a + of_int (Z.of_nat i) * ((b - a) / of_int n)).
Proof.
  intros Hn Hxs i Hi.
  assert (Nz : (of_int n : Qc) <> 0) by (apply of_int_Qc_nonzero; lia).
  unfold np.linspace in Hxs.
  destruct (Z.ltb_spec (n + 1) 0); [lia|].
  replace (n + 1 - 1)%Z with n in Hxs by lia.
  destruct (Z.ltb_spec 0 n); [|lia].
  destruct (Z.ltb_spec 1 (n + 1)); [|lia].
  injection Hxs as <-.
  assert (Ln : forall g : Qc -> Qc,
             length (map g (np.arange (T := Qc) (n + 1))) = S (Z.to_nat n))
    by (intros g; rewrite length_map, length_arange; lia).
  match goal with
  | |- context [if ?c then _ else _] => destruct c
  end; rewrite map_map.
  all: destruct (Nat.eq_dec i (Z.to_nat n)) as [->|Ne];
    [ match goal with
      | |- nth_error (np.set_last ?y _) _ = _ =>
          pose proof (nth_error_set_last_end y b) as E;
          rewrite Ln in E; simpl in E; rewrite Nat.sub_0_r in E;
          rewrite E
            by (let N := fresh in
                intros N; apply (f_equal (@length Qc)) in N;
                rewrite Ln in N; discriminate)
      end;
      f_equal; rewrite Z2Nat.id by lia; field; exact Nz
    | rewrite nth_error_set_last_lt by (rewrite Ln; lia);
      rewrite nth_error_map, nth_error_arange by lia;
      simpl; f_equal; unfold Qcdiv; ring ].
Qed.

Lemma Qc_ltb_lt (u v : Qc) : ltb u v = true <-> u < v.
Proof.
  rewrite Qclt_alt. simpl. destruct (u ?= v); split; congruence.
Qed.

Lemma Qc_step_pos (a b : Qc) (n : Z) :
  (1 <= n)%Z -> a < b -> 0 < (b - a) / of_int n.
Proof.
  intros Hn Hab.
  assert (Pn : 0 < (of_int n : Qc)) by (apply of_int_Qc_pos; lia).
  apply Qcnot_le_lt. intros Hle.
  apply (Qcmult_le_compat_r _ _ (of_int n)) in Hle;
    [|now apply Qclt_le_weak].
  replace ((b - a) / of_int n * of_int n) with (b + - a) in Hle
    by (field; apply of_int_Qc_nonzero; lia).
  rewrite Qcmult_0_l in Hle.
  apply Qclt_minus_iff in Hab. now apply Qcle_not_lt in Hle.
Qed.

Lemma Qc_sum_zeros (l : list Qc) : Forall (eq 0) l -> summation l = 0.
Proof.
  induction 1 as [|v l <- _ IH]; [reflexivity|].
  rewrite Qc_sum_cons, IH. ring.
Qed.

Lemma zero_heights (method : Method) (xs : list Qc) :
  Forall (eq 0) (rule_heights method np.zeros_like xs).
Proof.
  apply Forall_forall. intros v Hv.
  destruct method; simpl in Hv;
    repeat (apply in_map_iff in Hv; destruct Hv as [? [<- Hv]]);
    try reflexivity.
  revert Hv. generalize (from_1 xs) (but_last xs). intros u w.
  revert u. induction w as [|p w IH]; intros [|q u]; simpl; try tauto.
  intros [<-|Hin]; [unfold np.zeros_like; simpl; unfold Qcdiv; ring|].
  eauto.
Qed.

Section Exact.
Context {sympy : SymPy Qc}.

(** over the rationals the total is the step times the sum of the heights
    that the rule selected *)
Lemma calculations_run_Qc (s : store Qc) (f : Qc -> Qc) (a b : Qc) (n : Z)
      (method : Method) :
  f_lambdified s = Some f -> (1 <= n)%Z ->
  exists xs,
    np.linspace a b (n + 1) = Ok xs /\
    length xs = S (Z.to_nat n) /\
    calculations a b n method s
    = (Ok tt, computed s f xs ((b - a) / of_int n) method
                       ((b - a) / of_int n * summation (rule_heights method f xs))).
Proof.
  intros Hf Hn.
  destruct (calculations_run s f a b n method Hf Hn)
    as [xs [t [Hxs [Hlen [Ht Hrun]]]]].
  exists xs. repeat split; auto.
  rewrite Hrun. do 2 f_equal.
  destruct (rule_heights method f xs) as [|h hs] eqn:E.
  - apply (f_equal (@length Qc)) in E.
    rewrite length_rule_heights, Hlen in E. discriminate.
  - change (map (fun h => mul h (div (sub b a) (of_int n))) (h :: hs))
      with (mul h (div (sub b a) (of_int n))
              :: map (fun h => mul h (div (sub b a) (of_int n))) hs) in Ht.
    rewrite item_last_cumsum in Ht. injection Ht as <-.
    exact (Qc_sum_scaled ((b - a) / of_int n) (h :: hs)).
Qed.

Lemma partition_steps (a b : Qc) (n : Z) (xs : list Qc) :
  (1 <= n)%Z -> np.linspace a b (n + 1) = Ok xs ->
  length xs = S (Z.to_nat n) ->
  forall i xi xi1,
    nth_error xs i = Some xi -> nth_error xs (S i) = Some xi1 ->
    xi1 = xi + (b - a) / of_int n.
Proof.
  intros Hn Hxs Hlen i xi xi1 Ei Ei1.
  assert (Hi : (S i < length xs)%nat)
    by (apply nth_error_Some; congruence).
  rewrite (linspace_Qc_entries a b n xs Hn Hxs i) in Ei by lia.
  rewrite (linspace_Qc_entries a b n xs Hn Hxs (S i)) in Ei1 by lia.
  apply Some_inj in Ei. apply Some_inj in Ei1. subst xi xi1.
  rewrite of_int_Qc_S. ring.
Qed.

(** C2, amended. Over exact arithmetic, for all bounds [a], [b] and
    [n >= 1], the partition has exactly [n + 1] entries
    [x_i = a + i * dx] with [dx = (b - a)/n]; its first entry is [a] and its
    last entry is [b]; it is strictly increasing when [a < b], strictly
    decreasing when [b < a] (so strictly monotonic when [a <> b]) and
    constantly [a] when [a = b]. *)
Theorem partition_over_exact_arithmetic
        (s : store Qc) (f : Qc -> Qc) (a b : Qc) (n : Z) (method : Method) :
  f_lambdified s = Some f -> (1 <= n)%Z ->
  exists s' xs,
    calculations a b n method s = (Ok tt, s') /\
    x_vals s' = Some xs /\ dx s' = Some ((b - a) / of_int n) /\
    length xs = S (Z.to_nat n) /\
    (forall i, (i <= Z.to_nat n)%nat ->
       nth_error xs i = Some (a + of_int (Z.of_nat i) * ((b - a) / of_int n))) /\
    nth_error xs 0 = Some a /\
    nth_error xs (Z.to_nat n) = Some b /\
    (a < b -> strictly_increasing xs) /\
    (b < a -> strictly_decreasing xs) /\
    (a <> b -> strictly_monotonic xs) /\
    (a = b -> Forall (eq a) xs).
Proof.
  intros Hf Hn.
  destruct (calculations_run_Qc s f a b n method Hf Hn)
    as [xs [Hxs [Hlen Hrun]]].
  pose proof (linspace_Qc_entries a b n xs Hn Hxs) as Hent.
  pose proof (partition_steps a b n xs Hn Hxs Hlen) as Hstep.
  assert (Nz : (of_int n : Qc) <> 0) by (apply of_int_Qc_nonzero; lia).
  assert (Inc : a < b -> strictly_increasing xs).
  { intros Hab i xi xi1 Ei Ei1. apply Qc_ltb_lt.
    rewrite (Hstep i xi xi1 Ei Ei1).
    apply Qclt_minus_iff.
    replace (xi + (b - a) / of_int n + - xi) with ((b - a) / of_int n) by ring.
    now apply Qc_step_pos. }
  assert (Dec : b < a -> strictly_decreasing xs).
  { intros Hba i xi xi1 Ei Ei1. apply Qc_ltb_lt.
    rewrite (Hstep i xi xi1 Ei Ei1).
    apply Qclt_minus_iff.
    replace (xi + - (xi + (b - a) / of_int n)) with ((a - b) / of_int n)
      by (field; exact Nz).
    now apply Qc_step_pos. }
  eexists _, xs. split; [exact Hrun|].
  repeat split; auto.
  - rewrite Hent by lia. f_equal.
    change (of_int (Z.of_nat 0) : Qc) with 0. ring.
  - rewrite Hent by lia. f_equal. rewrite Z2Nat.id by lia. field. exact Nz.
  - intros Hab. destruct (Qc_dec a b) as [[Hlt|Hgt]|Heq].
    + left. auto.
    + right. auto.
    + contradiction.
  - intros <-. apply Forall_forall. intros x Hx.
    apply In_nth_error in Hx. destruct Hx as [i Hi].
    assert (Hlt : (i < length xs)%nat) by (apply nth_error_Some; congruence).
    rewrite Hent in Hi by lia. injection Hi as <-.
    unfold Qcdiv. ring.
Qed.


(** C8, amended. Over exact arithmetic, for every [f], [n >= 1] and [a]
    with [b = a], the run goes through with [dx = 0], a partition whose
    [n + 1] entries all equal [a], [n] areas that are all [0], and total
    [0]. *)
Theorem equal_bounds_give_zero_areas
        (s : store Qc) (f : Qc -> Qc) (a : Qc) (n : Z) (method : Method) :
  f_lambdified s = Some f -> (1 <= n)%Z ->
  exists s' xs ar,
    calculations a a n method s = (Ok tt, s') /\
    dx s' = Some 0 /\ x_vals s' = Some xs /\ areas s' = Some ar /\
    total_integral s' = Some 0 /\
    length xs = S (Z.to_nat n) /\ length ar = Z.to_nat n /\
    Forall (eq a) xs /\ Forall (eq 0) ar.
Proof.
  intros Hf Hn.
  destruct (calculations_run_Qc s f a a n method Hf Hn)
    as [xs [Hxs [Hlen Hrun]]].
  assert (Ed : (a - a) / of_int n = 0) by (unfold Qcdiv; ring).
  rewrite Ed in Hrun.
  eexists _, xs, _. split; [exact Hrun|].
  repeat split; auto.
  - simpl. f_equal. ring.
  - rewrite length_map, length_rule_heights, Hlen. simpl. lia.
  - apply Forall_forall. intros x Hx.
    apply In_nth_error in Hx. destruct Hx as [i Hi].
    assert (Hlt : (i < length xs)%nat) by (apply nth_error_Some; congruence).
    rewrite (linspace_Qc_entries a a n xs Hn Hxs) in Hi by lia.
    injection Hi as <-. unfold Qcdiv. ring.
  - apply Forall_forall. intros v Hv.
    apply in_map_iff in Hv. destruct Hv as [h [<- _]]. simpl. ring.
Qed.

(** C10. Over exact arithmetic, for every [f], bounds and [n >= 1], the
    Trapezoid total is the arithmetic mean of the Left total and the Right
    total on the same [f], [a], [b], [n]. *)
Theorem trapezoid_is_mean_of_left_and_right
        (s : store Qc) (f : Qc -> Qc) (a b : Qc) (n : Z) :
  f_lambdified s = Some f -> (1 <= n)%Z ->
  exists s_left s_right s_trap t_left t_right t_trap,
    calculations a b n Left s = (Ok tt, s_left) /\
    calculations a b n Right s = (Ok tt, s_right) /\
    calculations a b n Trapezoid s = (Ok tt, s_trap) /\
    total_integral s_left = Some t_left /\
    total_integral s_right = Some t_right /\
    total_integral s_trap = Some t_trap /\
    t_trap = (t_left + t_right) / of_int 2.
Proof.
  intros Hf Hn.
  destruct (calculations_run_Qc s f a b n Left Hf Hn) as [xs [Hxs [Hlen Hl]]].
  destruct (calculations_run_Qc s f a b n Right Hf Hn) as [xs' [Hxs' [_ Hr]]].
  destruct (calculations_run_Qc s f a b n Trapezoid Hf Hn)
    as [xs'' [Hxs'' [_ Ht]]].
  assert (xs' = xs) by congruence. assert (xs'' = xs) by congruence.
  subst xs' xs''.
  rewrite Hl, Hr, Ht.
  do 6 eexists. repeat split.
  simpl.
  set (L := map f (but_last xs)). set (R := map f (from_1 xs)).
  assert (E : summation (map (fun v => v / Q2Qc (inject_Z 2)) (np.add_arrays L R))
              = (summation L + summation R) / Q2Qc (inject_Z 2)).
  { rewrite <- Qc_sum_add_arrays
      by (unfold L, R; rewrite !length_map, length_but_last, length_from_1;
          reflexivity).
    generalize (np.add_arrays L R). intros l.
    induction l as [|v l IH]; [simpl; unfold Qcdiv; ring|].
    change (map (fun v => v / Q2Qc (inject_Z 2)) (v :: l))
      with (v / Q2Qc (inject_Z 2) :: map (fun v => v / Q2Qc (inject_Z 2)) l).
    rewrite !Qc_sum_cons, IH. unfold Qcdiv. ring. }
  rewrite E. unfold Qcdiv. ring.
Qed.

(** the part of C6 that the code does: when [sp.sympify] raises
    [SympifyError], the error is reported, the zero function is
    substituted and the total is [0] for all bounds *)
Lemma rejected_text_integrates_to_zero
      (func_str : string) (a b : Qc) (n : Z) (method : Method) (s : store Qc) :
  sympify func_str = Raise SympifyError -> (1 <= n)%Z ->
  exists s',
    script func_str a b n method s = (Ok tt, s') /\
    st_error s' = (st_error s ++ [invalid_format])%list /\
    f_lambdified s' = Some np.zeros_like /\
    total_integral s' = Some 0.
Proof.
  intros E Hn. unfold script, bind.
  rewrite (parsing_falls_back func_str s E).
  set (s1 := set_f_lambdified _ _).
  destruct (calculations_run_Qc s1 np.zeros_like a b n method eq_refl Hn)
    as [xs [_ [_ Hrun]]].
  rewrite Hrun. eexists. split; [reflexivity|].
  repeat split. simpl. f_equal.
  rewrite (Qc_sum_zeros _ (zero_heights method xs)). ring.
Qed.
End Exact.

(** an instance, on [0, 5] cut in five *)
Lemma partition_over_exact_arithmetic_witness :
  exists s' xs,
    calculations 0 (Q2Qc 5) 5 Left parsed_x_squared = (Ok tt, s') /\
    x_vals s' = Some xs /\ dx s' = Some ((Q2Qc 5 - 0) / of_int 5) /\
    length xs = S (Z.to_nat 5) /\
    (forall i, (i <= Z.to_nat 5)%nat ->
       nth_error xs i
       = Some (0 + of_int (Z.of_nat i) * ((Q2Qc 5 - 0) / of_int 5))) /\
    nth_error xs 0 = Some 0 /\
    nth_error xs (Z.to_nat 5) = Some (Q2Qc 5) /\
    (0 < Q2Qc 5 -> strictly_increasing xs) /\
    (Q2Qc 5 < 0 -> strictly_decreasing xs) /\
    (0 <> Q2Qc 5 -> strictly_monotonic xs) /\
    (0 = Q2Qc 5 -> Forall (eq 0) xs).
Proof.
  apply (partition_over_exact_arithmetic parsed_x_squared (fun x => mul x x)
           0 (Q2Qc 5) 5 Left); [reflexivity|lia].
Defined.


(** an instance, on [x**2] over [3, 3] *)
Lemma equal_bounds_give_zero_areas_witness :
  exists s' xs ar,
    calculations (Q2Qc 3) (Q2Qc 3) 4 Midpoint parsed_x_squared = (Ok tt, s') /\
    dx s' = Some 0 /\ x_vals s' = Some xs /\ areas s' = Some ar /\
    total_integral s' = Some 0 /\
    length xs = S (Z.to_nat 4) /\ length ar = Z.to_nat 4 /\
    Forall (eq (Q2Qc 3)) xs /\ Forall (eq 0) ar.
Proof.
  apply (equal_bounds_give_zero_areas parsed_x_squared (fun x => mul x x)
           (Q2Qc 3) 4 Midpoint); [reflexivity|lia].
Defined.

(** an instance, on [x**2] over [0, 5] cut in
    five *)
Lemma trapezoid_is_mean_of_left_and_right_witness :
  exists s_left s_right s_trap t_left t_right t_trap,
    calculations 0 (Q2Qc 5) 5 Left parsed_x_squared = (Ok tt, s_left) /\
    calculations 0 (Q2Qc 5) 5 Right parsed_x_squared = (Ok tt, s_right) /\
    calculations 0 (Q2Qc 5) 5 Trapezoid parsed_x_squared = (Ok tt, s_trap) /\
    total_integral s_left = Some t_left /\
    total_integral s_right = Some t_right /\
    total_integral s_trap = Some t_trap /\
    t_trap = (t_left + t_right) / of_int 2.
Proof.
  apply (trapezoid_is_mean_of_left_and_right parsed_x_squared
           (fun x => mul x x) 0 (Q2Qc 5) 5); [reflexivity|lia].
Defined.

(** ** Binary64: where rounding shows *)

Local Close Scope Qc_scope.



(** C2 as stated fails on the numbers the script computes with: for
    [a = 1e16], [b = 1e16 + 2] and [n = 2] the bounds differ, yet the
    partition is [[1e16, 1e16, 1e16 + 2]], whose first two entries
    coincide. *)
Lemma binary64_partition_not_strictly_monotonic :
  PrimFloat.eqb 1e16 10000000000000002 = false /\
  exists s' xs,
    calculations 1e16%float 10000000000000002%float 2 Left parsed_x = (Ok tt, s') /\
    x_vals s' = Some xs /\
    ~ strictly_monotonic xs.
Proof.
  split; [reflexivity|].
  eexists _, _. split; [vm_compute; reflexivity|].
  split; [reflexivity|].
  intros [Inc|Dec].
  - specialize (Inc 0 _ _ eq_refl eq_refl). vm_compute in Inc. discriminate.
  - specialize (Dec 0 _ _ eq_refl eq_refl). vm_compute in Dec. discriminate.
Qed.

(** C8 as stated fails on the numbers the script computes with: for
    [f(x) = 1/x] and [a = b = 0] the height is [inf], so the area
    [inf * 0] and the total are NaN, not [0]. *)
Lemma infinite_height_gives_nan_area :
  exists s' ar t,
    calculations 0%float 0%float 1 Left
      (set_f_lambdified (fun x => div (of_int 1) x) fresh) = (Ok tt, s') /\
    areas s' = Some ar /\ total_integral s' = Some t /\
    ~ Forall (fun v => is_zero v = true) ar /\ is_zero t = false.
Proof.
  eexists _, _, _. split; [vm_compute; reflexivity|].
  split; [reflexivity|]. split; [reflexivity|].
  split; [|reflexivity].
  intros F. inversion F as [|v l Hv _]. vm_compute in Hv. discriminate.
Qed.

(** the three concrete scenarios of the specification, as the script
    computes them *)
Example scenario_1 :
  outputs (snd (calculations 0%float 5%float 1 Left parsed_x_squared))
  = (Some [0; 5], Some 5, Some [0], Some [0], Some [0], Some 0)%float.
Proof. reflexivity. Qed.

Example scenario_2 :
  outputs (snd (calculations 0%float 5%float 1 Right parsed_x_squared))
  = (Some [0; 5], Some 5, Some [25], Some [125], Some [125], Some 125)%float.
Proof. reflexivity. Qed.

Example scenario_3 :
  outputs (snd (calculations 0%float 5%float 5 Trapezoid parsed_x_squared))
  = (Some [0; 1; 2; 3; 4; 5], Some 1, Some [0.5; 2.5; 6.5; 12.5; 20.5],
     Some [0.5; 2.5; 6.5; 12.5; 20.5], Some [0.5; 3; 9.5; 22; 42.5],
     Some 42.5)%float.
Proof. reflexivity. Qed.

(** * More of the script *)

(** ** The figure block *)

Section GraphProps.
Context {T : Type} {arith : Number T} {sympy : SymPy T}.

Lemma item_nth {A : Type} (arr : list A) (i : nat) (d : A) :
  i < length arr -> item arr i = Ok (nth i arr d).
Proof.
  intros Hi. unfold item.
  destruct (nth_error arr i) as [v|] eqn:E.
  - now rewrite (nth_error_nth _ _ d E).
  - apply nth_error_None in E. lia.
Qed.

Lemma for_each_pure {A B : Type} (items : list A) (body : A -> M T B)
      (g : A -> B) (s : store T) :
  (forall i, In i items -> body i s = (Ok (g i), s)) ->
  for_each items body s = (Ok (map g items), s).
Proof.
  induction items as [|i rest IH]; intros Hb; [reflexivity|].
  cbn [for_each map]. unfold bind at 1. rewrite (Hb i) by (left; reflexivity).
  unfold bind at 1. rewrite IH by (intros j Hj; apply Hb; right; exact Hj).
  reflexivity.
Qed.

Lemma bind_read {A B : Type} (var : store T -> option A) (k : A -> M T B)
      (s : store T) (v : A) :
  var s = Some v -> bind (read var) k s = k v s.
Proof. intros E. unfold bind, read. now rewrite E. Qed.

Lemma bind_eval {A B : Type} (v : A) (k : A -> M T B) (s : store T) :
  bind (eval (Ok v)) k s = k v s.
Proof. reflexivity. Qed.

Lemma bind_ret {A B : Type} (v : A) (k : A -> M T B) (s : store T) :
  bind (ret v) k s = k v s.
Proof. reflexivity. Qed.

Lemma bind_assoc {A B C : Type} (m : M T A) (f : A -> M T B) (g : B -> M T C)
      (s : store T) :
  bind (bind m f) g s = bind m (fun x => bind (f x) g) s.
Proof. unfold bind. destruct (m s) as [[v|e] s']; reflexivity. Qed.

Lemma draw_bars_run (n : Z) (method : Method) (s : store T)
      (xs hs : list T) (d : T) :
  x_vals s = Some xs -> dx s = Some d -> heights s = Some hs ->
  length xs = S (Z.to_nat n) -> length hs = Z.to_nat n ->
  draw_bars n method s
  = (Ok (map (fun i => mkBar (edge_value method (nth i xs zero)
                                          (nth (i + 1) xs zero) d)
                             (nth i hs zero) d)
             (range n)), s).
Proof.
  intros Hx Hd Hh Lx Lh. unfold draw_bars.
  apply for_each_pure. intros i Hi.
  apply in_seq in Hi.
  assert (Eh : item hs i = Ok (nth i hs zero)) by (apply item_nth; lia).
  assert (Ei : item xs i = Ok (nth i xs zero)) by (apply item_nth; lia).
  assert (Ej : item xs (i + 1) = Ok (nth (i + 1) xs zero))
    by (apply item_nth; lia).
  unfold bar_edge.
  destruct method;
    repeat first
      [ rewrite bind_assoc
      | rewrite (bind_read x_vals _ s xs Hx)
      | rewrite (bind_read dx _ s d Hd)
      | rewrite (bind_read heights _ s hs Hh)
      | rewrite Ei | rewrite Ej | rewrite Eh
      | rewrite bind_eval | rewrite bind_ret ];
    reflexivity.
Qed.
End GraphProps.

(** ** Edge cases of the calculations and of the parsing *)

Section EdgeCases.
Context {T : Type} {arith : Number T} {sympy : SymPy T}.

Lemma calculations_at_minus_1 (f : T -> T) (a b : T) (method : Method)
      (s : store T) :
  f_lambdified s = Some f ->
  calculations a b (-1) method s
  = (Raise IndexError,
     set_cumulative []
       (set_areas []
          (set_heights []
             (set_dx (div (sub b a) (of_int (-1))) (set_x_vals [] s))))).
Proof.
  intros Hf. unfold calculations, bind, eval, assign, read.
  destruct method; simpl; rewrite Hf; reflexivity.
Qed.

(** X2. For [n < -1] the block stops at its first line:
    [np.linspace(a, b, n + 1)] raises [ValueError] for the negative number
    of samples, and no variable is assigned. *)
Theorem negative_count_is_refused_by_linspace
        (a b : T) (n : Z) (method : Method) (s : store T) :
  (n < -1)%Z -> calculations a b n method s = (Raise ValueError, s).
Proof.
  intros Hn. unfold calculations, bind, eval, np.linspace.
  destruct (Z.ltb_spec (n + 1) 0) as [_|Hge]; [reflexivity|lia].
Qed.

(** X3. For [n = -1] the partition, heights, areas and cumulative trace are
    assigned as empty arrays and [dx] as [(b - a) / (-1)]; the block then
    stops with [IndexError] at [cumulative[-1]], leaving [total_integral]
    as it was. *)
Theorem minus_one_subdivisions_index_error
        (f : T -> T) (a b : T) (method : Method) (s : store T) :
  f_lambdified s = Some f ->
  exists s',
    calculations a b (-1) method s = (Raise IndexError, s') /\
    x_vals s' = Some [] /\ heights s' = Some [] /\ areas s' = Some [] /\
    cumulative s' = Some [] /\
    dx s' = Some (div (sub b a) (of_int (-1))) /\
    total_integral s' = total_integral s.
Proof.
  intros Hf. rewrite (calculations_at_minus_1 f) by exact Hf.
  eexists. split; [reflexivity|]. repeat split.
Qed.

(** X4. Whatever the inputs and whether it completes or raises, the
    calculations block never changes the parsed expression, the callable
    or the reported errors. *)
Theorem calculations_keep_the_parsed_function
        (a b : T) (n : Z) (method : Method) (s : store T) :
  func_sympy (snd (calculations a b n method s)) = func_sympy s /\
  f_lambdified (snd (calculations a b n method s)) = f_lambdified s /\
  st_error (snd (calculations a b n method s)) = st_error s.
Proof.
  unfold calculations, bind, eval, assign, read.
  destruct (np.linspace a b (n + 1)) as [xs|e]; simpl; [|repeat split].
  destruct (truediv (sub b a) n) as [d|e]; simpl; [|repeat split].
  destruct method; simpl;
    (destruct (f_lambdified s) as [f|] eqn:Ef; simpl; [|repeat split; auto]);
    match goal with
    | |- context [item_last ?l] => destruct (item_last l) as [t|e]
    end; simpl; repeat split; auto.
Qed.
End EdgeCases.

Section ParsingCases.
Context {T : Type} {arith : Number T} {sympy : SymPy T}.

Lemma app_one_neq {A : Type} (l : list A) (v : A) : l ++ [v] <> l.
Proof.
  intros E. apply (f_equal (@length A)) in E.
  rewrite length_app in E. simpl in E. lia.
Qed.

(** X5. The parsing block reports an error exactly when [sp.sympify] or
    [sp.lambdify] raised [SympifyError] or [TypeError]; it then returns
    normally, having reported the one message "Invalid function format..."
    and assigned the zero function to [f_lambdified]. *)
Theorem error_reported_iff_caught (func_str : string) (s : store T) :
  (st_error (snd (parsing func_str s)) <> st_error s <->
   exists e, parser_raises func_str = Some e /\ caught_by_parser e = true) /\
  (st_error (snd (parsing func_str s)) <> st_error s ->
   fst (parsing func_str s) = Ok tt /\
   st_error (snd (parsing func_str s)) = st_error s ++ [invalid_format] /\
   f_lambdified (snd (parsing func_str s)) = Some np.zeros_like).
Proof.
  rewrite parsing_outcome. unfold parser_raises.
  destruct (sympify func_str) as [ex|e].
  - destruct (lambdify ex) as [f|e].
    + simpl. split; [split|]; try tauto.
      intros [e [He _]]. discriminate.
    + destruct (caught_by_parser e) eqn:C; simpl.
      * split; [split|]; auto.
        -- intros _. exists e. auto.
        -- intros _. apply app_one_neq.
      * split; [split|]; try tauto.
        intros [e' [He' C']]. congruence.
  - destruct (caught_by_parser e) eqn:C; simpl.
    + split; [split|]; auto.
      * intros _. exists e. auto.
      * intros _. apply app_one_neq.
    + split; [split|]; try tauto.
      intros [e' [He' C']]. congruence.
Qed.

(** X6. An exception of [sp.sympify] or [sp.lambdify] that the [except]
    clause does not name stops the script with that exception: the
    calculations are not run, nothing is reported, and the callable and the
    calculated variables stay as they were. *)
Theorem uncaught_exception_stops_the_script
        (func_str : string) (a b : T) (n : Z) (method : Method)
        (s : store T) (e : exn) :
  parser_raises func_str = Some e -> caught_by_parser e = false ->
  exists s',
    script func_str a b n method s = (Raise e, s') /\
    outputs s' = outputs s /\
    f_lambdified s' = f_lambdified s /\ st_error s' = st_error s.
Proof.
  intros Hr Hc. unfold script, bind. rewrite parsing_outcome.
  unfold parser_raises in Hr.
  destruct (sympify func_str) as [ex|e'].
  - destruct (lambdify ex) as [f|e']; [discriminate|].
    injection Hr as ->. rewrite Hc.
    eexists. split; [reflexivity|]. repeat split.
  - injection Hr as ->. rewrite Hc.
    eexists. split; [reflexivity|]. repeat split.
Qed.

End ParsingCases.

(** ** Relations between the rules, in any arithmetic *)

Section Relations.
Context {T : Type} {arith : Number T} {sympy : SymPy T}.

(** X9. In any arithmetic (so on binary64), for [n >= 1] the partition has
    [n + 1] entries, its last entry is [b] itself, and, when the step
    [dx = (b - a)/n] is not zero, entry [i < n] is [i * dx + a] as
    computed. *)
Theorem partition_in_any_arithmetic
        (s : store T) (f : T -> T) (a b : T) (n : Z) (method : Method) :
  f_lambdified s = Some f -> (1 <= n)%Z ->
  exists s' xs,
    calculations a b n method s = (Ok tt, s') /\
    x_vals s' = Some xs /\
    length xs = S (Z.to_nat n) /\
    nth_error xs (Z.to_nat n) = Some b /\
    (is_zero (div (sub b a) (of_int n)) = false ->
     forall i, i < Z.to_nat n ->
       nth_error xs i
       = Some (add (mul (of_int (Z.of_nat i)) (div (sub b a) (of_int n))) a)).
Proof.
  intros Hf Hn.
  destruct (calculations_run s f a b n method Hf Hn)
    as [xs [t [Hxs [_ [_ Hrun]]]]].
  destruct (partition_as_computed a b n xs Hn Hxs) as [L [E P]].
  eexists _, xs. split; [exact Hrun|]. repeat split; auto.
Qed.

Lemma left_right_runs (s : store T) (f : T -> T) (a b : T) (n : Z) :
  f_lambdified s = Some f -> (1 <= n)%Z ->
  exists xs tl tr tt_,
    length xs = S (Z.to_nat n) /\
    nth_error xs (Z.to_nat n) = Some b /\
    calculations a b n Left s
    = (Ok tt, computed s f xs (div (sub b a) (of_int n)) Left tl) /\
    calculations a b n Right s
    = (Ok tt, computed s f xs (div (sub b a) (of_int n)) Right tr) /\
    calculations a b n Trapezoid s
    = (Ok tt, computed s f xs (div (sub b a) (of_int n)) Trapezoid tt_).
Proof.
  intros Hf Hn.
  destruct (calculations_run s f a b n Left Hf Hn)
    as [xs [tl [Hxs [Hlen [_ Hl]]]]].
  destruct (calculations_run s f a b n Right Hf Hn)
    as [xs' [tr [Hxs' [_ [_ Hr]]]]].
  destruct (calculations_run s f a b n Trapezoid Hf Hn)
    as [xs'' [tt_ [Hxs'' [_ [_ Ht]]]]].
  assert (xs' = xs) by congruence. assert (xs'' = xs) by congruence.
  subst xs' xs''.
  destruct (partition_as_computed a b n xs Hn Hxs) as [_ [E _]].
  exists xs, tl, tr, tt_. repeat split; auto.
Qed.

(** X10. In any arithmetic, for [n >= 1], the Right heights are the Left
    heights shifted by one place: Right height [i] is Left height [i + 1]
    for [i + 1 < n], and the last Right height is [f(b)] itself. *)
Theorem right_heights_are_left_heights_shifted
        (s : store T) (f : T -> T) (a b : T) (n : Z) :
  f_lambdified s = Some f -> (1 <= n)%Z ->
  exists s_left s_right hl hr,
    calculations a b n Left s = (Ok tt, s_left) /\
    calculations a b n Right s = (Ok tt, s_right) /\
    heights s_left = Some hl /\ heights s_right = Some hr /\
    length hl = Z.to_nat n /\ length hr = Z.to_nat n /\
    (forall i, S i < Z.to_nat n -> nth_error hr i = nth_error hl (S i)) /\
    nth_error hr (Z.to_nat n - 1) = Some (f b).
Proof.
  intros Hf Hn.
  destruct (left_right_runs s f a b n Hf Hn)
    as [xs [tl [tr [tt_ [Hlen [Hb [Hl [Hr _]]]]]]]].
  eexists _, _, _, _. split; [exact Hl|]. split; [exact Hr|].
  split; [reflexivity|]. split; [reflexivity|].
  unfold rule_heights. repeat split.
  - rewrite length_map, length_but_last, Hlen. simpl. lia.
  - rewrite length_map, length_from_1, Hlen. simpl. lia.
  - intros i Hi. rewrite !nth_error_map, nth_error_from_1.
    rewrite nth_error_but_last by (rewrite Hlen; simpl; lia). reflexivity.
  - rewrite nth_error_map, nth_error_from_1.
    replace (S (Z.to_nat n - 1)) with (Z.to_nat n) by lia.
    now rewrite Hb.
Qed.

(** X11. In any arithmetic, for [n >= 1], each Trapezoid height is the sum
    of the Left and Right heights of the same subinterval, divided by 2. *)
Theorem trapezoid_heights_average_left_and_right
        (s : store T) (f : T -> T) (a b : T) (n : Z) :
  f_lambdified s = Some f -> (1 <= n)%Z ->
  exists s_left s_right s_trap hl hr ht,
    calculations a b n Left s = (Ok tt, s_left) /\
    calculations a b n Right s = (Ok tt, s_right) /\
    calculations a b n Trapezoid s = (Ok tt, s_trap) /\
    heights s_left = Some hl /\ heights s_right = Some hr /\
    heights s_trap = Some ht /\
    length ht = Z.to_nat n /\
    forall i l r, nth_error hl i = Some l -> nth_error hr i = Some r ->
                  nth_error ht i = Some (div (add l r) (of_int 2)).
Proof.
  intros Hf Hn.
  destruct (left_right_runs s f a b n Hf Hn)
    as [xs [tl [tr [tt_ [Hlen [Hb [Hl [Hr Ht]]]]]]]].
  eexists _, _, _, _, _, _. split; [exact Hl|]. split; [exact Hr|].
  split; [exact Ht|].
  split; [reflexivity|]. split; [reflexivity|]. split; [reflexivity|].
  split.
  - rewrite (length_rule_heights Trapezoid), Hlen. simpl. lia.
  - intros i l r El Er. unfold rule_heights in *.
    rewrite nth_error_map.
    now rewrite (nth_error_add_arrays _ _ i l r El Er).
Qed.
End Relations.

(** ** The figure after the calculations *)

Section Figure.
Context {T : Type} {arith : Number T} {sympy : SymPy T}.

Lemma plot_curve_run (a b : T) (f : T -> T) (s : store T) :
  f_lambdified s = Some f ->
  exists x_plot,
    plot_curve a b s = (Ok (x_plot, map f x_plot), s) /\
    length x_plot = 500 /\ nth_error x_plot 499 = Some b.
Proof.
  intros Hf.
  destruct (linspace_ok a b 500) as [x_plot [Hx _]]; [lia|].
  destruct (partition_as_computed a b 499 x_plot) as [L [E _]];
    [lia|exact Hx|].
  exists x_plot. split; [|split; [exact L|exact E]].
  unfold plot_curve. rewrite Hx, bind_eval.
  rewrite (bind_read f_lambdified _ s f Hf). reflexivity.
Qed.

Lemma graph_run (a b : T) (n : Z) (method : Method) (s : store T)
      (f : T -> T) (xs hs : list T) (d : T) :
  f_lambdified s = Some f ->
  x_vals s = Some xs -> dx s = Some d -> heights s = Some hs ->
  length xs = S (Z.to_nat n) -> length hs = Z.to_nat n ->
  exists x_plot,
    graph a b n method s
    = (Ok ((x_plot, map f x_plot),
           map (fun i => mkBar (edge_value method (nth i xs zero)
                                           (nth (i + 1) xs zero) d)
                               (nth i hs zero) d)
               (range n)), s) /\
    length x_plot = 500 /\ nth_error x_plot 499 = Some b.
Proof.
  intros Hf Hx Hd Hh Lx Lh.
  destruct (plot_curve_run a b f s Hf) as [x_plot [Hc [L E]]].
  exists x_plot. split; [|split; [exact L|exact E]].
  unfold graph. unfold bind at 1. rewrite Hc.
  unfold bind at 1. rewrite (draw_bars_run n method s xs hs d) by assumption.
  reflexivity.
Qed.

(** X16. For a callable that returns the array of the values of [f] (a
    text that mentions [x]): after calculations that completed ([n >= 1])
    the figure block completes and leaves the store as it is.  The curve is sampled at 500
    abscissas, whatever [n], the last one [b] itself; there are [n] bars,
    and bar [i] has height [heights[i]], width [dx] and its left edge at
    [x_vals[i]] for Left and Trapezoid, [x_vals[i+1] - dx] for Right and
    [(x_vals[i] + x_vals[i+1])/2 - dx/2] for Midpoint. *)
Theorem figure_after_the_calculations
        (s : store T) (f : T -> T) (a b : T) (n : Z) (method : Method) :
  f_lambdified s = Some f -> (1 <= n)%Z ->
  exists s' xs hs d x_plot bars,
    calculations a b n method s = (Ok tt, s') /\
    x_vals s' = Some xs /\ heights s' = Some hs /\ dx s' = Some d /\
    graph a b n method s' = (Ok ((x_plot, map f x_plot), bars), s') /\
    length x_plot = 500 /\ nth_error x_plot 499 = Some b /\
    length bars = Z.to_nat n /\
    forall i xi xi1 h,
      nth_error xs i = Some xi -> nth_error xs (S i) = Some xi1 ->
      nth_error hs i = Some h ->
      nth_error bars i = Some (mkBar (edge_value method xi xi1 d) h d).
Proof.
  intros Hf Hn.
  destruct (calculations_run s f a b n method Hf Hn)
    as [xs [t [_ [Hlen [_ Hrun]]]]].
  set (d := div (sub b a) (of_int n)) in *.
  set (s' := computed s f xs d method t) in *.
  assert (Lh : length (rule_heights method f xs) = Z.to_nat n)
    by (rewrite length_rule_heights, Hlen; simpl; lia).
  destruct (graph_run a b n method s' f xs (rule_heights method f xs) d
              eq_refl eq_refl eq_refl eq_refl Hlen Lh)
    as [x_plot [Hg [L E]]].
  eexists s', xs, _, d, x_plot, _.
  split; [exact Hrun|]. split; [reflexivity|]. split; [reflexivity|].
  split; [reflexivity|]. split; [exact Hg|].
  split; [exact L|]. split; [exact E|]. split.
  - unfold range. now rewrite length_map, length_seq.
  - intros i xi xi1 h Ei Ei1 Eh.
    assert (Hi : i < Z.to_nat n)
      by (rewrite <- Lh; apply nth_error_Some; congruence).
    rewrite nth_error_map. unfold range. rewrite nth_error_seq.
    destruct (Nat.ltb_spec i (Z.to_nat n)); [|lia]. simpl.
    rewrite (nth_error_nth _ _ zero Ei), (nth_error_nth _ _ zero Eh).
    replace (i + 1) with (S i) by lia.
    now rewrite (nth_error_nth _ _ zero Ei1).
Qed.

Lemma summation_bar_areas (hs : list T) (d : T) (k : nat) (edge : nat -> T) :
  length hs = k ->
  map (fun bi => mul (bar_height bi) (bar_width bi))
      (map (fun i => mkBar (edge i) (nth i hs zero) d) (seq 0 k))
  = map (fun h => mul h d) hs.
Proof.
  intros L. rewrite map_map. cbn [bar_height bar_width].
  apply nth_error_ext. intros i.
  rewrite !nth_error_map, nth_error_seq.
  destruct (Nat.ltb_spec i k) as [Hi|Hi].
  - destruct (nth_error hs i) as [h|] eqn:E.
    + simpl. now rewrite (nth_error_nth _ _ zero E).
    + apply nth_error_None in E. lia.
  - assert (E : nth_error hs i = None) by (apply nth_error_None; lia).
    now rewrite E.
Qed.

(** X18. In any arithmetic, for [n >= 1], the total is the sum, taken from
    left to right, of height times width over the bars of the figure. *)
Theorem total_is_the_sum_of_the_bar_areas
        (s : store T) (f : T -> T) (a b : T) (n : Z) (method : Method) :
  f_lambdified s = Some f -> (1 <= n)%Z ->
  exists s' curve bars t,
    calculations a b n method s = (Ok tt, s') /\
    graph a b n method s' = (Ok (curve, bars), s') /\
    total_integral s' = Some t /\
    t = summation (map (fun bi => mul (bar_height bi) (bar_width bi)) bars).
Proof.
  intros Hf Hn.
  destruct (calculations_run s f a b n method Hf Hn)
    as [xs [t [_ [Hlen [Ht Hrun]]]]].
  set (d := div (sub b a) (of_int n)) in *.
  set (s' := computed s f xs d method t) in *.
  assert (Lh : length (rule_heights method f xs) = Z.to_nat n)
    by (rewrite length_rule_heights, Hlen; simpl; lia).
  destruct (graph_run a b n method s' f xs (rule_heights method f xs) d
              eq_refl eq_refl eq_refl eq_refl Hlen Lh)
    as [x_plot [Hg _]].
  eexists s', _, _, t.
  split; [exact Hrun|]. split; [exact Hg|]. split; [reflexivity|].
  unfold range. rewrite summation_bar_areas by exact Lh.
  destruct (map (fun h => mul h d) (rule_heights method f xs))
    as [|v l] eqn:E.
  - apply (f_equal (@length T)) in E. rewrite length_map, Lh in E.
    simpl in E. lia.
  - rewrite item_last_cumsum in Ht. congruence.
Qed.
End Figure.

(** ** Exact arithmetic: closed forms *)

Local Open Scope Qc_scope.

Lemma of_int_Qc_add (u v : Z) : (of_int (u + v) : Qc) = of_int u + of_int v.
Proof.
  change (Q2Qc (inject_Z (u + v)) = Q2Qc (inject_Z u) + Q2Qc (inject_Z v)).
  apply Qc_is_canon. unfold Qcplus, Q2Qc. cbn [this].
  rewrite !Qred_correct. unfold Qeq, Qplus, inject_Z. cbn [Qnum Qden]. lia.
Qed.

Lemma of_int_Qc_mul (u v : Z) : (of_int (u * v) : Qc) = of_int u * of_int v.
Proof.
  change (Q2Qc (inject_Z (u * v)) = Q2Qc (inject_Z u) * Q2Qc (inject_Z v)).
  apply Qc_is_canon. unfold Qcmult, Q2Qc. cbn [this].
  rewrite !Qred_correct. unfold Qeq, Qmult, inject_Z. cbn [Qnum Qden]. lia.
Qed.

Lemma of_int_Qc_1 : (of_int 1 : Qc) = 1.
Proof. apply Qc_is_canon. reflexivity. Qed.

Lemma of_int_Qc_0 : (of_int 0 : Qc) = 0.
Proof. apply Qc_is_canon. reflexivity. Qed.

Lemma of_int_Qc_2 : (of_int 2 : Qc) = 1 + 1.
Proof. apply Qc_is_canon. reflexivity. Qed.

Lemma Qc_two_nonzero : (1 + 1 : Qc) <> 0.
Proof. rewrite <- of_int_Qc_2. apply of_int_Qc_nonzero. lia. Qed.

Lemma Qc_sum_app_one (l : list Qc) (v : Qc) :
  summation (l ++ [v]) = summation l + v.
Proof.
  destruct l as [|w l]; [simpl; ring|].
  change (summation ((w :: l) ++ [v])) with (fold_left add (l ++ [v]) w).
  rewrite fold_left_app. reflexivity.
Qed.

Lemma Qc_sum_seq_S (h : nat -> Qc) (k : nat) :
  summation (map h (seq 0 (S k))) = summation (map h (seq 0 k)) + h k.
Proof. rewrite seq_S, map_app. apply Qc_sum_app_one. Qed.

Section ArraysOfMaps.
Context {T : Type} {arith : Number T}.
Lemma add_arrays_map {A : Type} (p q : A -> T) (l : list A) :
  np.add_arrays (map p l) (map q l) = map (fun i => add (p i) (q i)) l.
Proof. induction l as [|i l IH]; simpl; [|rewrite IH]; reflexivity. Qed.
End ArraysOfMaps.

(** the partition over the rationals, as a list *)
Lemma partition_Qc_as_map (a b : Qc) (n : Z) (xs : list Qc) :
  (1 <= n)%Z -> np.linspace a b (n + 1) = Ok xs ->
  xs = map (fun i => a + of_int (Z.of_nat i) * ((b - a) / of_int n))
           (seq 0 (S (Z.to_nat n))).
Proof.
  intros Hn Hxs.
  destruct (partition_as_computed a b n xs Hn Hxs) as [L _].
  apply nth_error_ext. intros i.
  rewrite nth_error_map, nth_error_seq.
  destruct (Nat.ltb_spec i (S (Z.to_nat n))) as [Hi|Hi].
  - rewrite (linspace_Qc_entries a b n xs Hn Hxs i) by lia. reflexivity.
  - apply nth_error_None. lia.
Qed.

Lemma rule_heights_Qc (method : Method) (f : Qc -> Qc) (g : nat -> Qc)
      (k : nat) :
  rule_heights method f (map g (seq 0 (S k)))
  = map (fun i => table_height method f (g i) (g (S i))) (seq 0 k).
Proof.
  assert (B : but_last (map g (seq 0 (S k))) = map g (seq 0 k)).
  { unfold but_last. rewrite seq_S, map_app. apply removelast_last. }
  assert (F : from_1 (map g (seq 0 (S k))) = map (fun i => g (S i)) (seq 0 k)).
  { unfold from_1. cbn [seq map tl]. now rewrite <- seq_shift, map_map. }
  unfold rule_heights. rewrite B, F.
  destruct method; cbn [table_height]; rewrite ?map_map;
    rewrite ?add_arrays_map, ?map_map; reflexivity.
Qed.

Section Closed.
Context {sympy : SymPy Qc}.

(** over the rationals: the heights and the total of a run, as sums over
    the subinterval index *)
Lemma calculations_closed_form
      (s : store Qc) (f : Qc -> Qc) (a b : Qc) (n : Z) (method : Method) :
  f_lambdified s = Some f -> (1 <= n)%Z ->
  let d := (b - a) / of_int n in
  let g := fun i : nat => a + of_int (Z.of_nat i) * d in
  let hs := map (fun i => table_height method f (g i) (g (S i)))
                (seq 0 (Z.to_nat n)) in
  exists s',
    calculations a b n method s = (Ok tt, s') /\
    dx s' = Some d /\ heights s' = Some hs /\
    areas s' = Some (map (fun h => h * d) hs) /\
    total_integral s' = Some (d * summation hs).
Proof.
  intros Hf Hn d g hs.
  destruct (calculations_run_Qc s f a b n method Hf Hn)
    as [xs [Hxs [Hlen Hrun]]].
  pose proof (partition_Qc_as_map a b n xs Hn Hxs) as Exs.
  fold d in Exs. fold g in Exs.
  assert (Eh : rule_heights method f xs = hs)
    by (rewrite Exs; apply rule_heights_Qc).
  eexists. split; [exact Hrun|].
  unfold computed. cbn [dx heights areas total_integral].
  rewrite Eh. repeat split.
Qed.
End Closed.

Lemma of_nat_to_nat_Qc (n : Z) :
  (1 <= n)%Z -> (of_int (Z.of_nat (Z.to_nat n)) : Qc) = of_int n.
Proof. intros Hn. now rewrite Z2Nat.id by lia. Qed.

Lemma Qc_step_times_n (a b : Qc) (n : Z) :
  (1 <= n)%Z -> (b - a) / of_int n * of_int n = b - a.
Proof. intros Hn. field. apply of_int_Qc_nonzero. lia. Qed.

(** telescoping *)
Lemma Qc_sum_shift (u : nat -> Qc) (k : nat) :
  summation (map (fun i => u (S i)) (seq 0 k))
  = summation (map u (seq 0 k)) + u k - u 0%nat.
Proof.
  induction k as [|k IH].
  - simpl. ring.
  - rewrite !Qc_sum_seq_S, IH. ring.
Qed.

(** sum of the values of a linear function at the midpoints *)
Lemma Qc_sum_linear (p q a d : Qc) (k : nat) :
  summation (map (fun i : nat =>
                    p * (a + (of_int (Z.of_nat i) + / (1 + 1)) * d) + q)
                 (seq 0 k))
  = of_int (Z.of_nat k) * (p * a + q)
    + p * d * (of_int (Z.of_nat k) * of_int (Z.of_nat k)) / (1 + 1).
Proof.
  induction k as [|k IH].
  - change (of_int (Z.of_nat 0) : Qc) with 0. simpl. unfold Qcdiv. ring.
  - rewrite Qc_sum_seq_S, IH, of_int_Qc_S. field. apply Qc_two_nonzero.
Qed.

(** sum of squares: [6 * (1^2 + ... + k^2) = k (k+1) (2k+1)] *)
Lemma Qc_sum_squares (d : Qc) (k : nat) :
  (1 + 1) * (1 + 1 + 1)
  * summation (map (fun i : nat =>
                      (of_int (Z.of_nat (S i)) * d) * (of_int (Z.of_nat (S i)) * d))
                   (seq 0 k))
  = d * d * (of_int (Z.of_nat k) * (of_int (Z.of_nat k) + 1)
             * ((1 + 1) * of_int (Z.of_nat k) + 1)).
Proof.
  induction k as [|k IH].
  - change (of_int (Z.of_nat 0) : Qc) with 0. simpl. ring.
  - rewrite Qc_sum_seq_S, Qcmult_plus_distr_r, IH, !of_int_Qc_S. ring.
Qed.

Section Exactness.
Context {sympy : SymPy Qc}.

(** the difference of the Right and Left totals telescopes *)
Lemma right_total_minus_left_total
      (s : store Qc) (f : Qc -> Qc) (a b : Qc) (n : Z) :
  f_lambdified s = Some f -> (1 <= n)%Z ->
  exists s_left s_right t_left t_right,
    calculations a b n Left s = (Ok tt, s_left) /\
    calculations a b n Right s = (Ok tt, s_right) /\
    total_integral s_left = Some t_left /\
    total_integral s_right = Some t_right /\
    t_right - t_left = (b - a) / of_int n * (f b - f a).
Proof.
  intros Hf Hn.
  destruct (calculations_closed_form s f a b n Left Hf Hn)
    as [sl [Hl [_ [_ [_ Tl]]]]].
  destruct (calculations_closed_form s f a b n Right Hf Hn)
    as [sr [Hr [_ [_ [_ Tr]]]]].
  eexists sl, sr, _, _. split; [exact Hl|]. split; [exact Hr|].
  split; [exact Tl|]. split; [exact Tr|].
  cbn [table_height].
  set (d := (b - a) / of_int n).
  rewrite (Qc_sum_shift (fun i => f (a + of_int (Z.of_nat i) * d))).
  rewrite of_nat_to_nat_Qc by exact Hn.
  change (of_int (Z.of_nat 0) : Qc) with 0.
  replace (a + 0 * d) with a by ring.
  replace (a + of_int n * d) with b
    by (unfold d; field; apply of_int_Qc_nonzero; lia).
  ring.
Qed.

(** X12. Over exact arithmetic, for [n >= 1], the Right total exceeds the
    Left total by [dx * (f(b) - f(a))]. *)
Theorem right_minus_left_telescopes
        (s : store Qc) (f : Qc -> Qc) (a b : Qc) (n : Z) :
  f_lambdified s = Some f -> (1 <= n)%Z ->
  exists s_left s_right t_left t_right,
    calculations a b n Left s = (Ok tt, s_left) /\
    calculations a b n Right s = (Ok tt, s_right) /\
    total_integral s_left = Some t_left /\
    total_integral s_right = Some t_right /\
    t_right - t_left = (b - a) / of_int n * (f b - f a).
Proof. apply right_total_minus_left_total. Qed.

(** X14. Over exact arithmetic, for [n >= 1], the Midpoint and Trapezoid
    rules integrate a linear function [p * x + q] exactly: the total is
    [p * (b^2 - a^2)/2 + q * (b - a)]. *)
Theorem linear_is_integrated_exactly
        (s : store Qc) (f : Qc -> Qc) (p q a b : Qc) (n : Z) (method : Method) :
  f_lambdified s = Some f -> (forall x, f x = p * x + q) ->
  method = Midpoint \/ method = Trapezoid -> (1 <= n)%Z ->
  exists s',
    calculations a b n method s = (Ok tt, s') /\
    total_integral s' = Some (p * (b * b - a * a) / (1 + 1) + q * (b - a)).
Proof.
  intros Hf Hlin Hm Hn.
  destruct (calculations_closed_form s f a b n method Hf Hn)
    as [s' [Hrun [_ [_ [_ Ht]]]]].
  exists s'. split; [exact Hrun|]. rewrite Ht. f_equal.
  set (d := (b - a) / of_int n).
  rewrite (map_ext _ (fun i : nat =>
             p * (a + (of_int (Z.of_nat i) + / (1 + 1)) * d) + q)).
  - rewrite Qc_sum_linear, of_nat_to_nat_Qc by exact Hn.
    unfold d. field. split; [apply Qc_two_nonzero|].
    apply of_int_Qc_nonzero. lia.
  - intros i. destruct Hm as [-> | ->]; cbn [table_height];
      rewrite ?Hlin, of_int_Qc_S;
      change (div ?u (of_int 2)) with (u / of_int 2);
      change (add ?u ?v) with (u + v);
      rewrite of_int_Qc_2; field; apply Qc_two_nonzero.
Qed.
End Exactness.

Lemma of_int_Qc_3 : (of_int 3 : Qc) = 1 + 1 + 1.
Proof. apply Qc_is_canon. reflexivity. Qed.

Lemma of_int_Qc_6 : (of_int 6 : Qc) = (1 + 1) * (1 + 1 + 1).
Proof. apply Qc_is_canon. reflexivity. Qed.

Lemma of_int_Qc_125 : (of_int 125 : Qc) = of_int 5 * of_int 5 * of_int 5.
Proof. apply Qc_is_canon. reflexivity. Qed.

Ltac Qc_nonzero :=
  repeat split;
  first [ assumption
        | discriminate
        | apply Qc_two_nonzero
        | rewrite <- of_int_Qc_3; apply of_int_Qc_nonzero; lia
        | apply of_int_Qc_nonzero; lia ].

Section Documented.
Context {sympy : SymPy Qc}.

(** X15. The formulas of the script's "Detailed Explanation" hold of what
    the script computes, over exact arithmetic: for [f(x) = x**2] on
    [[0, 5]] with the Right rule and [n >= 1], [dx = 5/n], the area of the
    [i]-th rectangle ([i = 1..n]) is [125 i^2 / n^3], and the total is
    [125 (n+1)(2n+1) / (6 n^2)]. *)
Theorem right_sums_of_x_squared_on_0_5
        (s : store Qc) (f : Qc -> Qc) (n : Z) :
  f_lambdified s = Some f -> (forall x, f x = x * x) -> (1 <= n)%Z ->
  exists s' ar,
    calculations 0 (of_int 5) n Right s = (Ok tt, s') /\
    dx s' = Some (of_int 5 / of_int n) /\
    areas s' = Some ar /\
    length ar = Z.to_nat n /\
    (forall i, (i < Z.to_nat n)%nat ->
       nth_error ar i
       = Some (of_int 125 * (of_int (Z.of_nat (S i)) * of_int (Z.of_nat (S i)))
               / (of_int n * of_int n * of_int n))) /\
    total_integral s'
    = Some (of_int 125 * (of_int n + 1) * ((1 + 1) * of_int n + 1)
            / (of_int 6 * (of_int n * of_int n))).
Proof.
  intros Hf Hsq Hn.
  assert (Nz : (of_int n : Qc) <> 0) by (apply of_int_Qc_nonzero; lia).
  destruct (calculations_closed_form s f 0 (of_int 5) n Right Hf Hn)
    as [s' [Hrun [Hd [_ [Ha Ht]]]]].
  cbn [table_height] in Ha, Ht.
  set (d := (of_int 5 - 0) / of_int n) in *.
  assert (Ed : d = of_int 5 / of_int n) by (unfold d; field; exact Nz).
  eexists s', _. split; [exact Hrun|]. split; [now rewrite Hd, Ed|].
  split; [exact Ha|]. split; [|split].
  - now rewrite !length_map, length_seq.
  - intros i Hi. rewrite !nth_error_map, nth_error_seq.
    destruct (Nat.ltb_spec i (Z.to_nat n)); [|lia].
    cbn [option_map Nat.add]. f_equal.
    rewrite Hsq, Ed, of_int_Qc_125. field. exact Nz.
  - rewrite (map_ext _ (fun i : nat =>
               (of_int (Z.of_nat (S i)) * d) * (of_int (Z.of_nat (S i)) * d)))
      in Ht by (intros i; rewrite Hsq; ring).
    rewrite Ht. f_equal.
    pose proof (Qc_sum_squares d (Z.to_nat n)) as E.
    rewrite of_nat_to_nat_Qc in E by exact Hn.
    set (S0 := summation _) in *.
    assert (E' : S0 = d * d * (of_int n * (of_int n + 1)
                               * ((1 + 1) * of_int n + 1))
                      / ((1 + 1) * (1 + 1 + 1))).
    { rewrite <- E. field. Qc_nonzero. }
    rewrite E', Ed, of_int_Qc_125, of_int_Qc_6. field. Qc_nonzero.
Qed.

(** X17. Over exact arithmetic, for [n >= 1] and every rule, the bars
    tile the interval: bar [i] starts at [x_i = a + i * dx], has width
    [dx], and ends where bar [i + 1] starts. *)
Theorem bars_tile_the_interval
        (s : store Qc) (f : Qc -> Qc) (a b : Qc) (n : Z) (method : Method) :
  f_lambdified s = Some f -> (1 <= n)%Z ->
  exists s' curve bars,
    calculations a b n method s = (Ok tt, s') /\
    graph a b n method s' = (Ok (curve, bars), s') /\
    length bars = Z.to_nat n /\
    forall i, (i < Z.to_nat n)%nat ->
      exists bi,
        nth_error bars i = Some bi /\
        bar_x bi = a + of_int (Z.of_nat i) * ((b - a) / of_int n) /\
        bar_width bi = (b - a) / of_int n /\
        bar_x bi + bar_width bi
        = a + of_int (Z.of_nat (S i)) * ((b - a) / of_int n).
Proof.
  intros Hf Hn.
  destruct (calculations_run_Qc s f a b n method Hf Hn)
    as [xs [Hxs [Hlen Hrun]]].
  set (d := (b - a) / of_int n) in *.
  set (s' := computed s f xs d method _) in *.
  assert (Lh : length (rule_heights method f xs) = Z.to_nat n)
    by (rewrite length_rule_heights, Hlen; simpl; lia).
  destruct (graph_run a b n method s' f xs (rule_heights method f xs) d
              eq_refl eq_refl eq_refl eq_refl Hlen Lh)
    as [x_plot [Hg _]].
  eexists s', _, _. split; [exact Hrun|]. split; [exact Hg|]. split.
  - unfold range. now rewrite length_map, length_seq.
  - intros i Hi. eexists. split.
    + rewrite nth_error_map. unfold range. rewrite nth_error_seq.
      destruct (Nat.ltb_spec i (Z.to_nat n)); [|lia]. reflexivity.
    + cbn [bar_x bar_width Nat.add].
      pose proof (linspace_Qc_entries a b n xs Hn Hxs i) as Ei.
      pose proof (linspace_Qc_entries a b n xs Hn Hxs (i + 1)) as Ej.
      rewrite (nth_error_nth _ _ zero (Ei ltac:(lia))).
      rewrite (nth_error_nth _ _ zero (Ej ltac:(lia))).
      replace (i + 1)%nat with (S i) by lia.
      fold d. rewrite of_int_Qc_S.
      assert (Ee : edge_value method (a + of_int (Z.of_nat i) * d)
                              (a + (of_int (Z.of_nat i) + 1) * d) d
                   = a + of_int (Z.of_nat i) * d).
      { destruct method; cbn [edge_value]; try reflexivity.
        - change (sub ?u ?v) with (u - v). ring.
        - change (sub ?u ?v) with (u - v).
          change (div ?u (of_int 2)) with (u / of_int 2).
          change (add ?u ?v) with (u + v).
          rewrite of_int_Qc_2. field. apply Qc_two_nonzero. }
      rewrite Ee. repeat split. ring.
Qed.

(** X7. Over exact arithmetic, when [sp.sympify] or [sp.lambdify] raised
    [SympifyError] or [TypeError] and [n >= 1], the script completes with
    one reported error, [n] heights and areas that are all [0], and total
    [0], whatever the bounds and the rule. *)
Theorem caught_text_integrates_to_zero
        (func_str : string) (a b : Qc) (n : Z) (method : Method)
        (s : store Qc) (e : exn) :
  parser_raises func_str = Some e -> caught_by_parser e = true ->
  (1 <= n)%Z ->
  exists s' hs ar,
    script func_str a b n method s = (Ok tt, s') /\
    st_error s' = (st_error s ++ [invalid_format])%list /\
    heights s' = Some hs /\ Forall (eq 0) hs /\
    areas s' = Some ar /\ Forall (eq 0) ar /\
    length hs = Z.to_nat n /\
    total_integral s' = Some 0.
Proof.
  intros Hr Hc Hn.
  assert (Run : forall s1 : store Qc,
             st_error s1 = st_error s ->
             exists s' hs ar,
               calculations a b n method (fallen_back s1) = (Ok tt, s') /\
               st_error s' = (st_error s ++ [invalid_format])%list /\
               heights s' = Some hs /\ Forall (eq 0) hs /\
               areas s' = Some ar /\ Forall (eq 0) ar /\
               length hs = Z.to_nat n /\
               total_integral s' = Some 0).
  { intros s1 Es.
    destruct (calculations_run_Qc (fallen_back s1) np.zeros_like a b n method
                eq_refl Hn) as [xs [_ [Hlen Hrun]]].
    eexists _, _, _. split; [exact Hrun|].
    unfold computed. cbn [st_error heights areas total_integral fallen_back
                            set_f_lambdified add_st_error].
    split; [now rewrite Es|]. split; [reflexivity|].
    split; [apply zero_heights|]. split; [reflexivity|]. split; [|split].
    - apply Forall_forall. intros v Hv. apply in_map_iff in Hv.
      destruct Hv as [h [<- Hh]].
      pose proof (zero_heights method xs) as Z0.
      rewrite Forall_forall in Z0. rewrite <- (Z0 h Hh). simpl. ring.
    - rewrite length_rule_heights, Hlen. simpl. lia.
    - f_equal. rewrite (Qc_sum_zeros _ (zero_heights method xs)). ring. }
  unfold script, bind. rewrite parsing_outcome.
  unfold parser_raises in Hr.
  destruct (sympify func_str) as [ex|e'].
  - destruct (lambdify ex) as [f|e']; [discriminate|].
    injection Hr as ->. rewrite Hc. apply Run. reflexivity.
  - injection Hr as ->. rewrite Hc. apply Run. reflexivity.
Qed.
End Documented.

(** ** Exact arithmetic: order, symmetry and linearity *)

Lemma Qc_sum_rev (l : list Qc) : summation (rev l) = summation l.
Proof.
  induction l as [|v l IH]; [reflexivity|].
  cbn [rev]. rewrite Qc_sum_app_one, IH, Qc_sum_cons. ring.
Qed.

Lemma map_seq_mirrored (h : nat -> Qc) (k : nat) :
  map (fun i => h (k - 1 - i)%nat) (seq 0 k) = rev (map h (seq 0 k)).
Proof.
  apply nth_error_ext. intros i.
  rewrite nth_error_map, nth_error_seq.
  destruct (Nat.ltb_spec i k) as [Hi|Hi].
  - cbn [option_map Nat.add].
    rewrite nth_error_rev, length_map, length_seq.
    destruct (Nat.ltb_spec i k); [|lia].
    rewrite nth_error_map, nth_error_seq.
    destruct (Nat.ltb_spec (k - S i) k); [|lia].
    cbn [option_map Nat.add]. do 2 f_equal. lia.
  - symmetry. apply nth_error_None. rewrite length_rev, length_map, length_seq.
    exact Hi.
Qed.

Lemma Qc_sum_combination (al be : Qc) (u v : nat -> Qc) (k : nat) :
  summation (map (fun i => al * u i + be * v i) (seq 0 k))
  = al * summation (map u (seq 0 k)) + be * summation (map v (seq 0 k)).
Proof.
  induction k as [|k IH]; [simpl; ring|].
  rewrite !Qc_sum_seq_S, IH. ring.
Qed.

Lemma of_int_Qc_sub_nat (k i : nat) :
  (i <= k)%nat ->
  (of_int (Z.of_nat (k - i)) : Qc) = of_int (Z.of_nat k) - of_int (Z.of_nat i).
Proof.
  intros Hi. rewrite Nat2Z.inj_sub by exact Hi.
  replace (Z.of_nat k - Z.of_nat i)%Z with (Z.of_nat k + - Z.of_nat i)%Z by lia.
  rewrite of_int_Qc_add.
  replace (- Z.of_nat i)%Z with ((-1) * Z.of_nat i)%Z by lia.
  rewrite of_int_Qc_mul.
  assert (E : (of_int (-1) : Qc) = - (1)) by (apply Qc_is_canon; reflexivity).
  rewrite E. ring.
Qed.

Section Symmetries.
Context {sympy : SymPy Qc}.

(** X19. Over exact arithmetic, for [n >= 1] and [a <= b], when
    [f(a) <= f(b)] the Left total is at most the Right total. *)
Theorem left_total_at_most_right_total
        (s : store Qc) (f : Qc -> Qc) (a b : Qc) (n : Z) :
  f_lambdified s = Some f -> (1 <= n)%Z -> a <= b -> f a <= f b ->
  exists s_left s_right t_left t_right,
    calculations a b n Left s = (Ok tt, s_left) /\
    calculations a b n Right s = (Ok tt, s_right) /\
    total_integral s_left = Some t_left /\
    total_integral s_right = Some t_right /\
    t_left <= t_right.
Proof.
  intros Hf Hn Hab Hfab.
  destruct (right_total_minus_left_total s f a b n Hf Hn)
    as [sl [sr [tl [tr [Hl [Hr [Tl [Tr E]]]]]]]].
  exists sl, sr, tl, tr. repeat split; auto.
  apply Qcle_minus_iff.
  replace (tr + - tl) with (tr - tl) by ring. rewrite E.
  assert (Hd : 0 <= (b - a) / of_int n).
  { destruct (Qcle_lt_or_eq _ _ Hab) as [Hlt| ->].
    - apply Qclt_le_weak. now apply Qc_step_pos.
    - replace ((b - b) / of_int n) with 0 by (unfold Qcdiv; ring).
      apply Qcle_refl. }
  assert (Hf' : 0 <= f b - f a).
  { apply Qcle_minus_iff in Hfab.
    now replace (f b - f a) with (f b + - f a) by ring. }
  replace 0 with (0 * (f b - f a)) by ring.
  now apply Qcmult_le_compat_r.
Qed.

(** X20. Over exact arithmetic, for [n >= 1], swapping the bounds negates
    the total: the run on [(b, a)] yields minus the total of the run on
    [(a, b)] with the mirrored rule (Left and Right exchanged, Midpoint and
    Trapezoid unchanged). *)
Theorem swapping_the_bounds_negates_the_total
        (s : store Qc) (f : Qc -> Qc) (a b : Qc) (n : Z) (method : Method) :
  f_lambdified s = Some f -> (1 <= n)%Z ->
  exists s1 s2 t1 t2,
    calculations a b n (mirror method) s = (Ok tt, s1) /\
    calculations b a n method s = (Ok tt, s2) /\
    total_integral s1 = Some t1 /\
    total_integral s2 = Some t2 /\
    t2 = - t1.
Proof.
  intros Hf Hn.
  assert (Nz : (of_int n : Qc) <> 0) by (apply of_int_Qc_nonzero; lia).
  destruct (calculations_closed_form s f a b n (mirror method) Hf Hn)
    as [s1 [H1 [_ [_ [_ T1]]]]].
  destruct (calculations_closed_form s f b a n method Hf Hn)
    as [s2 [H2 [_ [_ [_ T2]]]]].
  eexists s1, s2, _, _. split; [exact H1|]. split; [exact H2|].
  split; [exact T1|]. split; [exact T2|].
  set (k := Z.to_nat n).
  set (d := (b - a) / of_int n).
  set (g := fun j : nat => a + of_int (Z.of_nat j) * d).
  assert (Ek : (of_int (Z.of_nat k) : Qc) = of_int n)
    by (apply of_nat_to_nat_Qc; exact Hn).
  assert (Eg : forall i, (i <= k)%nat ->
                 b + of_int (Z.of_nat i) * ((a - b) / of_int n) = g (k - i)%nat).
  { intros i Hi. unfold g, d. rewrite of_int_Qc_sub_nat, Ek by exact Hi.
    field. exact Nz. }
  rewrite (map_ext_in
             (fun i : nat =>
                table_height method f
                  (b + of_int (Z.of_nat i) * ((a - b) / of_int n))
                  (b + of_int (Z.of_nat (S i)) * ((a - b) / of_int n)))
             (fun i : nat =>
                table_height (mirror method) f (g (k - 1 - i)%nat)
                             (g (S (k - 1 - i))))).
  - rewrite (map_seq_mirrored
               (fun j => table_height (mirror method) f (g j) (g (S j)))),
      Qc_sum_rev.
    unfold g, d, Qcdiv. ring.
  - intros i Hi. apply in_seq in Hi.
    rewrite (Eg i), (Eg (S i)) by lia.
    replace (k - S i)%nat with (k - 1 - i)%nat by lia.
    replace (k - i)%nat with (S (k - 1 - i)) by lia.
    destruct method; cbn [mirror table_height]; try reflexivity.
    + f_equal. change (div ?u ?w) with (u / w).
      change (add ?u ?v) with (u + v). unfold Qcdiv. ring.
    + change (div ?u ?w) with (u / w).
      change (add ?u ?v) with (u + v). unfold Qcdiv. ring.
Qed.

(** X21. Over exact arithmetic, for [n >= 1] and every rule, the total is
    linear in the function: for [f3 = al * f1 + be * f2] the total is
    [al] times the total of [f1] plus [be] times the total of [f2]. *)
Theorem total_is_linear_in_the_function
        (s1 s2 s3 : store Qc) (f1 f2 f3 : Qc -> Qc) (al be a b : Qc) (n : Z)
        (method : Method) :
  f_lambdified s1 = Some f1 -> f_lambdified s2 = Some f2 ->
  f_lambdified s3 = Some f3 ->
  (forall x, f3 x = al * f1 x + be * f2 x) -> (1 <= n)%Z ->
  exists s1' s2' s3' t1 t2 t3,
    calculations a b n method s1 = (Ok tt, s1') /\
    calculations a b n method s2 = (Ok tt, s2') /\
    calculations a b n method s3 = (Ok tt, s3') /\
    total_integral s1' = Some t1 /\ total_integral s2' = Some t2 /\
    total_integral s3' = Some t3 /\
    t3 = al * t1 + be * t2.
Proof.
  intros H1 H2 H3 Hlin Hn.
  destruct (calculations_closed_form s1 f1 a b n method H1 Hn)
    as [s1' [R1 [_ [_ [_ T1]]]]].
  destruct (calculations_closed_form s2 f2 a b n method H2 Hn)
    as [s2' [R2 [_ [_ [_ T2]]]]].
  destruct (calculations_closed_form s3 f3 a b n method H3 Hn)
    as [s3' [R3 [_ [_ [_ T3]]]]].
  eexists s1', s2', s3', _, _, _.
  split; [exact R1|]. split; [exact R2|]. split; [exact R3|].
  split; [exact T1|]. split; [exact T2|]. split; [exact T3|].
  set (d := (b - a) / of_int n).
  set (g := fun j : nat => a + of_int (Z.of_nat j) * d).
  rewrite (map_ext
             (fun i : nat => table_height method f3 (g i) (g (S i)))
             (fun i : nat => al * table_height method f1 (g i) (g (S i))
                             + be * table_height method f2 (g i) (g (S i)))).
  - rewrite Qc_sum_combination. unfold g, d. ring.
  - intros i. destruct method; cbn [table_height]; rewrite ?Hlin;
      try reflexivity.
    change (div ?u ?w) with (u / w). change (add ?u ?v) with (u + v).
    unfold Qcdiv. ring.
Qed.
End Symmetries.

Local Close Scope Qc_scope.

(** ** Instances of the properties above, on concrete inputs *)

Lemma negative_count_is_refused_by_linspace_witness :
  calculations 0%Qc (Q2Qc 5) (-5) Left parsed_x_squared
  = (Raise ValueError, parsed_x_squared).
Proof.
  apply (negative_count_is_refused_by_linspace 0%Qc (Q2Qc 5) (-5) Left
           parsed_x_squared).
  lia.
Defined.

Lemma minus_one_subdivisions_index_error_witness :
  exists s',
    calculations 0%Qc (Q2Qc 5) (-1) Right parsed_x_squared
    = (Raise IndexError, s') /\
    x_vals s' = Some [] /\ heights s' = Some [] /\ areas s' = Some [] /\
    cumulative s' = Some [] /\
    dx s' = Some (div (sub (Q2Qc 5) 0%Qc) (of_int (-1))) /\
    total_integral s' = total_integral parsed_x_squared.
Proof.
  apply (minus_one_subdivisions_index_error (fun x => mul x x) 0%Qc (Q2Qc 5)
           Right parsed_x_squared).
  reflexivity.
Defined.

Lemma uncaught_exception_stops_the_script_witness :
  exists s',
    script (sympy := raising_SymPy ValueError) "x**2" 0%Qc (Q2Qc 5) 10 Left
           fresh
    = (Raise ValueError, s') /\
    outputs s' = outputs fresh /\
    f_lambdified s' = f_lambdified fresh /\ st_error s' = st_error fresh.
Proof.
  apply (uncaught_exception_stops_the_script
           (sympy := raising_SymPy ValueError)
           "x**2" 0%Qc (Q2Qc 5) 10 Left fresh ValueError);
    reflexivity.
Defined.

Lemma partition_in_any_arithmetic_witness :
  exists s' xs,
    calculations 0%float 5%float 5 Left parsed_x_squared = (Ok tt, s') /\
    x_vals s' = Some xs /\
    length xs = S (Z.to_nat 5) /\
    nth_error xs (Z.to_nat 5) = Some 5%float /\
    (is_zero (div (sub 5%float 0%float) (of_int 5)) = false ->
     forall i, i < Z.to_nat 5 ->
       nth_error xs i
       = Some (add (mul (of_int (Z.of_nat i))
                        (div (sub 5%float 0%float) (of_int 5))) 0%float)).
Proof.
  apply (partition_in_any_arithmetic parsed_x_squared (fun x => mul x x)
           0%float 5%float 5 Left); [reflexivity|lia].
Defined.

Lemma right_heights_are_left_heights_shifted_witness :
  exists s_left s_right hl hr,
    calculations 0%float 5%float 5 Left parsed_x_squared = (Ok tt, s_left) /\
    calculations 0%float 5%float 5 Right parsed_x_squared = (Ok tt, s_right) /\
    heights s_left = Some hl /\ heights s_right = Some hr /\
    length hl = Z.to_nat 5 /\ length hr = Z.to_nat 5 /\
    (forall i, S i < Z.to_nat 5 -> nth_error hr i = nth_error hl (S i)) /\
    nth_error hr (Z.to_nat 5 - 1) = Some (mul 5%float 5%float).
Proof.
  apply (right_heights_are_left_heights_shifted parsed_x_squared
           (fun x => mul x x) 0%float 5%float 5); [reflexivity|lia].
Defined.

Lemma trapezoid_heights_average_left_and_right_witness :
  exists s_left s_right s_trap hl hr ht,
    calculations 0%float 5%float 5 Left parsed_x_squared = (Ok tt, s_left) /\
    calculations 0%float 5%float 5 Right parsed_x_squared = (Ok tt, s_right) /\
    calculations 0%float 5%float 5 Trapezoid parsed_x_squared
    = (Ok tt, s_trap) /\
    heights s_left = Some hl /\ heights s_right = Some hr /\
    heights s_trap = Some ht /\
    length ht = Z.to_nat 5 /\
    forall i l r, nth_error hl i = Some l -> nth_error hr i = Some r ->
                  nth_error ht i = Some (div (add l r) (of_int 2)).
Proof.
  apply (trapezoid_heights_average_left_and_right parsed_x_squared
           (fun x => mul x x) 0%float 5%float 5); [reflexivity|lia].
Defined.

Lemma figure_after_the_calculations_witness :
  exists s' xs hs d x_plot bars,
    calculations 0%float 1%float 3 Right parsed_x_squared = (Ok tt, s') /\
    x_vals s' = Some xs /\ heights s' = Some hs /\ dx s' = Some d /\
    graph 0%float 1%float 3 Right s'
    = (Ok ((x_plot, map (fun x => mul x x) x_plot), bars), s') /\
    length x_plot = 500 /\ nth_error x_plot 499 = Some 1%float /\
    length bars = Z.to_nat 3 /\
    forall i xi xi1 h,
      nth_error xs i = Some xi -> nth_error xs (S i) = Some xi1 ->
      nth_error hs i = Some h ->
      nth_error bars i = Some (mkBar (edge_value Right xi xi1 d) h d).
Proof.
  apply (figure_after_the_calculations parsed_x_squared (fun x => mul x x)
           0%float 1%float 3 Right); [reflexivity|lia].
Defined.

Lemma total_is_the_sum_of_the_bar_areas_witness :
  exists s' curve bars t,
    calculations 0%float 1%float 3 Right parsed_x_squared = (Ok tt, s') /\
    graph 0%float 1%float 3 Right s' = (Ok (curve, bars), s') /\
    total_integral s' = Some t /\
    t = summation (map (fun bi => mul (bar_height bi) (bar_width bi)) bars).
Proof.
  apply (total_is_the_sum_of_the_bar_areas parsed_x_squared
           (fun x => mul x x) 0%float 1%float 3 Right); [reflexivity|lia].
Defined.

Local Open Scope Qc_scope.

Lemma right_minus_left_telescopes_witness :
  exists s_left s_right t_left t_right,
    calculations 0 (Q2Qc 5) 10 Left parsed_x_squared = (Ok tt, s_left) /\
    calculations 0 (Q2Qc 5) 10 Right parsed_x_squared = (Ok tt, s_right) /\
    total_integral s_left = Some t_left /\
    total_integral s_right = Some t_right /\
    t_right - t_left
    = (Q2Qc 5 - 0) / of_int 10 * (mul (Q2Qc 5) (Q2Qc 5) - mul 0 0).
Proof.
  apply (right_minus_left_telescopes parsed_x_squared (fun x => mul x x)
           0 (Q2Qc 5) 10); [reflexivity|lia].
Defined.

Lemma linear_is_integrated_exactly_witness :
  exists s',
    calculations 1 (Q2Qc 4) 7 Midpoint
      (set_f_lambdified (fun x => Q2Qc 2 * x + 1) fresh) = (Ok tt, s') /\
    total_integral s'
    = Some (Q2Qc 2 * (Q2Qc 4 * Q2Qc 4 - 1 * 1) / (1 + 1) + 1 * (Q2Qc 4 - 1)).
Proof.
  apply (linear_is_integrated_exactly
           (set_f_lambdified (fun x => Q2Qc 2 * x + 1) fresh)
           (fun x => Q2Qc 2 * x + 1) (Q2Qc 2) 1 1 (Q2Qc 4) 7 Midpoint);
    [reflexivity|intros x; reflexivity|left; reflexivity|lia].
Defined.

Lemma right_sums_of_x_squared_on_0_5_witness :
  exists s' ar,
    calculations 0 (of_int 5) 10 Right parsed_x_squared = (Ok tt, s') /\
    dx s' = Some (of_int 5 / of_int 10) /\
    areas s' = Some ar /\
    length ar = Z.to_nat 10 /\
    (forall i, (i < Z.to_nat 10)%nat ->
       nth_error ar i
       = Some (of_int 125 * (of_int (Z.of_nat (S i)) * of_int (Z.of_nat (S i)))
               / (of_int 10 * of_int 10 * of_int 10))) /\
    total_integral s'
    = Some (of_int 125 * (of_int 10 + 1) * ((1 + 1) * of_int 10 + 1)
            / (of_int 6 * (of_int 10 * of_int 10))).
Proof.
  apply (right_sums_of_x_squared_on_0_5 parsed_x_squared (fun x => mul x x)
           10); [reflexivity|intros x; reflexivity|lia].
Defined.

Lemma bars_tile_the_interval_witness :
  exists s' curve bars,
    calculations 0 (Q2Qc 5) 10 Midpoint parsed_x_squared = (Ok tt, s') /\
    graph 0 (Q2Qc 5) 10 Midpoint s' = (Ok (curve, bars), s') /\
    length bars = Z.to_nat 10 /\
    forall i, (i < Z.to_nat 10)%nat ->
      exists bi,
        nth_error bars i = Some bi /\
        bar_x bi = 0 + of_int (Z.of_nat i) * ((Q2Qc 5 - 0) / of_int 10) /\
        bar_width bi = (Q2Qc 5 - 0) / of_int 10 /\
        bar_x bi + bar_width bi
        = 0 + of_int (Z.of_nat (S i)) * ((Q2Qc 5 - 0) / of_int 10).
Proof.
  apply (bars_tile_the_interval parsed_x_squared (fun x => mul x x)
           0 (Q2Qc 5) 10 Midpoint); [reflexivity|lia].
Defined.

Lemma caught_text_integrates_to_zero_witness :
  exists s' hs ar,
    script "x +" 0 (Q2Qc 5) 10 Left fresh = (Ok tt, s') /\
    st_error s' = (st_error (@fresh Qc known_SymPy) ++ [invalid_format])%list /\
    heights s' = Some hs /\ Forall (eq 0) hs /\
    areas s' = Some ar /\ Forall (eq 0) ar /\
    length hs = Z.to_nat 10 /\
    total_integral s' = Some 0.
Proof.
  apply (caught_text_integrates_to_zero "x +" 0 (Q2Qc 5) 10 Left fresh
           SympifyError); [reflexivity|reflexivity|lia].
Defined.

Lemma left_total_at_most_right_total_witness :
  exists s_left s_right t_left t_right,
    calculations 0 (Q2Qc 5) 10 Left parsed_x_squared = (Ok tt, s_left) /\
    calculations 0 (Q2Qc 5) 10 Right parsed_x_squared = (Ok tt, s_right) /\
    total_integral s_left = Some t_left /\
    total_integral s_right = Some t_right /\
    t_left <= t_right.
Proof.
  apply (left_total_at_most_right_total parsed_x_squared (fun x => mul x x)
           0 (Q2Qc 5) 10); [reflexivity|lia| |]; unfold Qcle; simpl;
    unfold Qle; simpl; lia.
Defined.

Lemma swapping_the_bounds_negates_the_total_witness :
  exists s1 s2 t1 t2,
    calculations 0 (Q2Qc 5) 10 (mirror Left) parsed_x_squared = (Ok tt, s1) /\
    calculations (Q2Qc 5) 0 10 Left parsed_x_squared = (Ok tt, s2) /\
    total_integral s1 = Some t1 /\
    total_integral s2 = Some t2 /\
    t2 = - t1.
Proof.
  apply (swapping_the_bounds_negates_the_total parsed_x_squared
           (fun x => mul x x) 0 (Q2Qc 5) 10 Left); [reflexivity|lia].
Defined.

Lemma total_is_linear_in_the_function_witness :
  exists s1' s2' s3' t1 t2 t3,
    calculations 0 (Q2Qc 5) 10 Midpoint parsed_x = (Ok tt, s1') /\
    calculations 0 (Q2Qc 5) 10 Midpoint parsed_x_squared = (Ok tt, s2') /\
    calculations 0 (Q2Qc 5) 10 Midpoint
      (set_f_lambdified (fun x => Q2Qc 3 * x + Q2Qc 2 * mul x x) fresh)
    = (Ok tt, s3') /\
    total_integral s1' = Some t1 /\ total_integral s2' = Some t2 /\
    total_integral s3' = Some t3 /\
    t3 = Q2Qc 3 * t1 + Q2Qc 2 * t2.
Proof.
  apply (total_is_linear_in_the_function
           parsed_x parsed_x_squared
           (set_f_lambdified (fun x => Q2Qc 3 * x + Q2Qc 2 * mul x x) fresh)
           (fun x => x) (fun x => mul x x)
           (fun x => Q2Qc 3 * x + Q2Qc 2 * mul x x)
           (Q2Qc 3) (Q2Qc 2) 0 (Q2Qc 5) 10 Midpoint);
    [reflexivity|reflexivity|reflexivity|intros x; reflexivity|lia].
Defined.

Local Close Scope Qc_scope.

(** ** The calculations on the callable as Python has it *)

Section CallableProps.
Context {T : Type} {arith : Number T} {sympy : SymPy T}.

(** on a callable that returns the values of [f], the block on a callable
    does what the script on the store does with [f_lambdified = f] *)
Lemma calculations_with_values
      (s : store T) (f : T -> T) (a b : T) (n : Z) (method : Method) :
  f_lambdified s = Some f ->
  match calculations a b n method s with
  | (Ok _, s') =>
      exists xs d hs ar cu t,
        x_vals s' = Some xs /\ dx s' = Some d /\ heights s' = Some hs /\
        areas s' = Some ar /\ cumulative s' = Some cu /\
        total_integral s' = Some t /\
        calculations_with (returns_values f) a b n method
        = Ok (mkCalculated xs d (ndarray hs) (ndarray ar) cu t)
  | (Raise e, _) =>
      calculations_with (returns_values f) a b n method = Raise e
  end.
Proof.
  intros Hf.
  unfold calculations, calculations_with, bind, eval, assign, read.
  destruct (np.linspace a b (n + 1)) as [xs|e]; simpl; [|reflexivity].
  destruct (truediv (sub b a) n) as [d|e]; simpl; [|reflexivity].
  destruct method; simpl; rewrite Hf; simpl;
    match goal with
    | |- context [item_last ?l] => destruct (item_last l) as [t|e]
    end; simpl; try reflexivity;
    eexists _, _, _, _, _, _; repeat split; reflexivity.
Qed.

Lemma heights_with_scalar (c : T) (method : Method) (xs : list T) :
  heights_with (returns_scalar c) method xs
  = Ok (scalar (scalar_height method c)).
Proof. destruct method; reflexivity. Qed.


Lemma calculations_with_positive (k : callable T) (a b : T) (n : Z)
      (method : Method) :
  (1 <= n)%Z ->
  exists xs,
    np.linspace a b (n + 1) = Ok xs /\ length xs = S (Z.to_nat n) /\
    calculations_with k a b n method
    = match heights_with k method xs with
      | Raise e => Raise e
      | Ok hs =>
          match item_last (nd_cumsum (nd_mul hs (div (sub b a) (of_int n)))) with
          | Raise e => Raise e
          | Ok t =>
              Ok (mkCalculated xs (div (sub b a) (of_int n)) hs
                    (nd_mul hs (div (sub b a) (of_int n)))
                    (nd_cumsum (nd_mul hs (div (sub b a) (of_int n)))) t)
          end
      end.
Proof.
  intros Hn.
  destruct (linspace_ok a b (n + 1)%Z) as [xs [Hxs Hlen]]; [lia|].
  replace (Z.to_nat (n + 1)%Z) with (S (Z.to_nat n)) in Hlen by lia.
  exists xs. split; [exact Hxs|]. split; [exact Hlen|].
  unfold calculations_with, truediv. rewrite Hxs.
  destruct (Z.eqb_spec n 0); [lia|]. reflexivity.
Qed.

(** C5 (where the code departs from it). For a text without [x], such as
    ["3"], the callable returns the scalar [c] whatever the array.  For
    every rule and [n >= 1] the calculations then complete with a partition
    of [n + 1] entries but with [heights] the scalar [c] ([(c + c)/2] for
    Trapezoid), [areas] the scalar [heights * dx], [cumulative] an array of
    one entry and [total_integral = heights * dx]: for [n >= 2] the
    cumulative trace does not have [n] entries. *)
Theorem text_without_x_breaks_the_lengths
        (c a b : T) (n : Z) (method : Method) :
  (1 <= n)%Z ->
  exists r,
    calculations_with (returns_scalar c) a b n method = Ok r /\
    length (c_x_vals r) = S (Z.to_nat n) /\
    c_dx r = div (sub b a) (of_int n) /\
    c_heights r = scalar (scalar_height method c) /\
    c_areas r = scalar (mul (scalar_height method c) (c_dx r)) /\
    c_cumulative r = [mul (scalar_height method c) (c_dx r)] /\
    c_total_integral r = mul (scalar_height method c) (c_dx r) /\
    ((2 <= n)%Z -> length (c_cumulative r) <> Z.to_nat n).
Proof.
  intros Hn.
  destruct (calculations_with_positive (returns_scalar c) a b n method Hn)
    as [xs [_ [Hlen Hrun]]].
  rewrite heights_with_scalar in Hrun. cbn [nd_mul nd_cumsum item_last] in Hrun.
  eexists. split; [exact Hrun|].
  cbn [c_x_vals c_dx c_heights c_areas c_cumulative c_total_integral].
  repeat split; auto.
  intros H2. simpl. lia.
Qed.

End CallableProps.

Lemma text_without_x_breaks_the_lengths_witness :
  exists r,
    calculations_with (returns_scalar 3%float) 1%float 4%float 7 Trapezoid
    = Ok r /\
    length (c_x_vals r) = S (Z.to_nat 7) /\
    c_dx r = div (sub 4%float 1%float) (of_int 7) /\
    c_heights r = scalar (scalar_height Trapezoid 3%float) /\
    c_areas r = scalar (mul (scalar_height Trapezoid 3%float) (c_dx r)) /\
    c_cumulative r = [mul (scalar_height Trapezoid 3%float) (c_dx r)] /\
    c_total_integral r = mul (scalar_height Trapezoid 3%float) (c_dx r) /\
    ((2 <= 7)%Z -> length (c_cumulative r) <> Z.to_nat 7).
Proof.
  apply (text_without_x_breaks_the_lengths 3%float 1%float 4%float 7
           Trapezoid).
  lia.
Defined.
